(** * cclient/http/http.c: the HTTP exchange of the IOTA C client

    A shallow embedding of [src/cclient/http/http.c] and the properties of
    its request writer, its streaming response reader and its retry loop.

    Conventions.
    - [size_t] and [uint64_t] values are [Z] with the wrap-around modulo
      [2^64] written where the C code computes.
    - [char] is [Byte.byte].  A [char*] that the code writes through is a
      flat memory [gmap Z byte] indexed from the pointer: cell [i] is the
      byte at [ptr + i].  The size of the object behind the pointer is kept
      next to it ([buf_length] for a [char_buffer_t], [1024] for the header
      array), so that a store at or after that size is visible as a mapped
      cell outside the object.
    - The transport ([cclient/http/socket.h]) is a script: the results that
      the successive calls of [mbedtls_socket_send] and
      [mbedtls_socket_recv] give on one connection.  A function returns
      [None] when the script says nothing about a call the code makes.
    - The calls into [http_parser] are modelled by the framing the reader
      relies on; the grammar of the header section is a parameter. *)

From Stdlib Require Import ZArith List Strings.String Strings.Byte DecimalString DecimalN Lia.
From stdpp Require Import base option list gmap.

Open Scope Z_scope.

(** ** Machine integers and C strings *)

Definition UINT64_MAX : Z := 2 ^ 64 - 1.

(** Conversion to [size_t] / [uint64_t]. *)
Definition to_size_t (z : Z) : Z := z mod 2 ^ 64.

Definition lit (s : string) : list byte := list_byte_of_string s.

Definition NUL : byte := x00.
Definition CR : byte := x0d.
Definition LF : byte := x0a.
Definition crlf : list byte := [CR; LF].

Definition is_nul (b : byte) : bool := Byte.eqb b NUL.

(** The characters of a C string: everything before the first [NUL]. *)
Fixpoint c_str (s : list byte) : list byte :=
  match s with
  | [] => []
  | b :: s' => if is_nul b then [] else b :: c_str s'
  end.

(** No [NUL] among the bytes. *)
Definition no_nul (s : list byte) : bool := forallb (fun b => negb (is_nul b)) s.

(** ** Flat memory behind a [char*] *)

(** [memcpy(dest + at, src, strlen src)]: one store per source byte, with no
    bound but the length of the source. *)
Fixpoint memcpy (dest : gmap Z byte) (at_ : Z) (src : list byte) : gmap Z byte :=
  match src with
  | [] => dest
  | b :: src' => memcpy (<[at_ := b]> dest) (at_ + 1) src'
  end.

(** The same store through a pointer moved by a [size_t], [dest + offset]:
    the address of each byte is taken modulo [2^64], so that past the cell
    [2^64 - 1], which is [dest[-1]], the store goes on at cell [0]. *)
Fixpoint memcpy_at (dest : gmap Z byte) (offset : Z) (src : list byte) : gmap Z byte :=
  match src with
  | [] => dest
  | b :: src' => memcpy_at (<[to_size_t offset := b]> dest) (offset + 1) src'
  end.

(** The [n] cells from [ptr] on; a cell that was never stored reads as
    [NUL]. *)
Definition read (mem : gmap Z byte) (ptr : Z) (n : Z) : list byte :=
  (fun i => default NUL (mem !! i)) <$> seqZ ptr n.

(** [char a[n] = {}]. *)
Definition zeroed (n : Z) : gmap Z byte :=
  memcpy ∅ 0 (replicate (Z.to_nat n) NUL).

Fixpoint strlen_from (mem : gmap Z byte) (i : Z) (fuel : nat) : Z :=
  match fuel with
  | O => 0
  | S fuel' =>
      match mem !! i with
      | Some b => if is_nul b then 0 else 1 + strlen_from mem (i + 1) fuel'
      | None => 0
      end
  end.

(** [strlen(mem)]: the cells are read up to the first [NUL]; the string
    cannot be longer than the number of mapped cells. *)
Definition strlen (mem : gmap Z byte) : Z := strlen_from mem 0 (size mem).

(** ** Types of http.c and of the headers it includes *)

(** [retcode_t] of [common/errors.h], the codes http.c names and the
    out-of-memory code an allocation can answer. *)
Inductive retcode_t :=
| RC_OK
| RC_ERROR
| RC_NULL_PARAM
| RC_OOM
| RC_UTILS_SOCKET_CONNECT
| RC_UTILS_SOCKET_SEND
| RC_UTILS_SOCKET_RECV
| RC_CCLIENT_HTTP
| RC_CCLIENT_HTTP_REQ.

Definition retcode_eqb (a b : retcode_t) : bool :=
  match a, b with
  | RC_OK, RC_OK | RC_ERROR, RC_ERROR | RC_NULL_PARAM, RC_NULL_PARAM
  | RC_OOM, RC_OOM | RC_UTILS_SOCKET_CONNECT, RC_UTILS_SOCKET_CONNECT
  | RC_UTILS_SOCKET_SEND, RC_UTILS_SOCKET_SEND
  | RC_UTILS_SOCKET_RECV, RC_UTILS_SOCKET_RECV
  | RC_CCLIENT_HTTP, RC_CCLIENT_HTTP
  | RC_CCLIENT_HTTP_REQ, RC_CCLIENT_HTTP_REQ => true
  | _, _ => false
  end.

Inductive IOTA_REQUEST_STATUS :=
| IOTA_REQUEST_STATUS_OK
| IOTA_REQUEST_STATUS_DONE
| IOTA_REQUEST_STATUS_ERROR.

(** [char_buffer_t]: [buf_length] is the allocated size, [buf_data] the
    memory behind [data]. *)
Record char_buffer_t := {
  buf_length : Z;
  buf_data : gmap Z byte;
}.

(** The bytes of a buffer, as a caller reads them. *)
Definition buffer_bytes (b : char_buffer_t) : list byte :=
  read (buf_data b) 0 (buf_length b).

(** The fields of [http_info_t] that the header prints. *)
Record http_info_t := {
  path : list byte;
  host : list byte;
  api_version : Z;
  content_type : list byte;
  accept : list byte;
}.

Record iota_client_service_t := {
  http : http_info_t;
}.

(** The header section of a response, one byte at a time: the state machine
    of [http_parser] up to the empty line. *)
Inductive header_result (S : Type) :=
| h_continue (s : S)
| h_complete (declared : Z)
| h_error.
Arguments h_continue {S} s.
Arguments h_complete {S} declared.
Arguments h_error {S}.

(** What http.c takes from [http_parser.h]: the header grammar.  [declared]
    is the value [parser->content_length] has when [on_headers_complete]
    runs, [UINT64_MAX] when the headers state no length. *)
Class HeaderGrammar := {
  hstate : Type;
  header_init : hstate;
  header_step : hstate -> byte -> header_result hstate;
}.

(** What http.c takes from [utils/char_buffer.h]. *)
Class CharBuffer := {
  char_buffer_allocate : char_buffer_t -> Z -> retcode_t * char_buffer_t;
}.

(** The constant of [cclient/http/socket.h] that bounds the retries. *)
Class SocketConfig := {
  CCLIENT_SOCKET_RETRY : Z;
}.

Inductive parser_state {G : HeaderGrammar} :=
| s_headers (h : hstate)
| s_body_identity
| s_body_identity_eof
| s_dead.

Record http_parser {G : HeaderGrammar} := {
  state : parser_state;
  content_length : Z;
}.

(** [struct _response_ctx]; the back pointer to the parser is the parser
    passed along with the context. *)
Record _response_ctx := {
  response : char_buffer_t;
  offset : Z;
  status : IOTA_REQUEST_STATUS;
}.

(** ** The transport script *)

(** What one call of [mbedtls_socket_recv] gives: the bytes it left in
    [buffer] (at most [RECEIVE_BUFFER_SIZE] of them), the end of the stream,
    or an error. *)
Inductive recv_result :=
| recv_data (bs : list byte)
| recv_eof
| recv_error (e : positive).

(** The value [mbedtls_socket_recv] returns. *)
Definition num_received_of (r : recv_result) : Z :=
  match r with
  | recv_data bs => Z.of_nat (length bs)
  | recv_eof => 0
  | recv_error e => Z.neg e
  end.

Definition received_bytes (r : recv_result) : list byte :=
  match r with
  | recv_data bs => bs
  | _ => []
  end.

(** Modelled from the spec: [mbedtls_socket_connect], [mbedtls_socket_send]
    and [mbedtls_socket_recv] of [cclient/http/socket.h], which is not among
    the sources, by the transport boundary of section 6,
    [send(bytes) -> nonNegativeByteCount | negativeError] and
    [receive(buffer, maxLen) -> positiveByteCount | zero(EOF) |
    negativeError].  [sockfd] is what the connect call returned and the two
    lists are what the successive send and receive calls return. *)
Record connection := {
  sockfd : Z;
  send_results : list Z;
  recv_results : list recv_result;
}.

(** The bytes a send call that answers [num_sent] has put on the wire, out
    of the [size] bytes at [ptr]. *)
Definition transmitted (mem : gmap Z byte) (ptr size num_sent : Z) : list byte :=
  read mem ptr (Z.min num_sent size).

(** ** The header template *)

(** [%s]. *)
Definition fmt_s (s : list byte) : list byte := c_str s.

(** [%d] of an [int]. *)
Definition fmt_d (z : Z) : list byte := lit (NilZero.string_of_int (Z.to_int z)).

(** [%lu] of a [size_t]. *)
Definition fmt_lu (z : Z) : list byte := lit (NilZero.string_of_uint (N.to_uint (Z.to_N z))).

Definition header_template (path host : list byte) (api_version : Z)
    (content_type accept : list byte) (data_length : Z) : list byte :=
  lit "POST " ++ fmt_s path ++ lit " HTTP/1.1" ++ crlf ++
  lit "Host: " ++ fmt_s host ++ crlf ++
  lit "X-IOTA-API-Version: " ++ fmt_d api_version ++ crlf ++
  lit "Content-Type: " ++ fmt_s content_type ++ crlf ++
  lit "Accept: " ++ fmt_s accept ++ crlf ++
  lit "Content-Length: " ++ fmt_lu data_length ++ crlf ++
  crlf.

(** [sprintf(dest, ...)]: the formatted characters and the terminating
    [NUL] are stored from [dest] on, however many they are. *)
Definition sprintf (dest : gmap Z byte) (formatted : list byte) : gmap Z byte :=
  memcpy dest 0 (formatted ++ [NUL]).

(** ** Callbacks of the response context *)

Section Callbacks.
Context {G : HeaderGrammar} {B : CharBuffer}.

Definition request_parse_header_complete (parser : http_parser)
    (ctx : _response_ctx) : Z * _response_ctx :=
  let data_len := content_length parser in
  if data_len =? UINT64_MAX then
    (-1, {| response := response ctx; offset := offset ctx;
            status := IOTA_REQUEST_STATUS_ERROR |})
  else
    let '(rc, buf) := char_buffer_allocate (response ctx) data_len in
    if retcode_eqb rc RC_OK then
      (0, {| response := buf; offset := 0; status := status ctx |})
    else
      (-1, {| response := buf; offset := offset ctx;
              status := IOTA_REQUEST_STATUS_ERROR |}).

(** [at_] stands for the [length] bytes at [at].  The destination is
    [data + offset] with [offset] a [size_t]. *)
Definition request_parse_data (ctx : _response_ctx) (at_ : list byte)
    : Z * _response_ctx :=
  let length := Z.of_nat (length at_) in
  (0, {| response :=
           {| buf_length := buf_length (response ctx);
              buf_data := memcpy_at (buf_data (response ctx)) (offset ctx) at_ |};
         offset := to_size_t (offset ctx + length);
         status := status ctx |}).

Definition request_parse_message_complete (ctx : _response_ctx)
    : Z * _response_ctx :=
  (0, {| response := response ctx; offset := offset ctx;
         status := IOTA_REQUEST_STATUS_DONE |}).

(** ** The parser run over one received chunk *)

(** [http_parser_init(&parser, HTTP_RESPONSE)]. *)
Definition http_parser_init : http_parser :=
  {| state := s_headers header_init; content_length := UINT64_MAX |}.

Definition set_state (parser : http_parser) (s : parser_state) : http_parser :=
  {| state := s; content_length := content_length parser |}.

(** The body callback for the marked bytes, if any are marked. *)
Definition callback_body (ctx : _response_ctx) (mark : list byte)
    : Z * _response_ctx :=
  match mark with
  | [] => (0, ctx)
  | _ => request_parse_data ctx mark
  end.

(** Modelled from the spec: [http_parser_execute] of [http_parser.h], which
    is not among the sources, by the events of section 4.2 as the parser
    raises them while it walks a chunk.  The header section ends with
    [on_headers_complete]; each body byte is marked and the marked run is
    handed to [on_body] when the declared length is reached or the chunk
    ends; [on_message_complete] follows the last body byte, and after it
    the parser consumes nothing more: the spec reads exactly one response
    and has no transition out of [Complete].  A callback that does not
    return [0] stops the parser.  The result is the number of bytes consumed, the
    parser and the context.  [p] counts the bytes consumed so far and
    [mark] holds the body bytes of this chunk not yet handed over. *)
Fixpoint http_parser_execute (parser : http_parser) (ctx : _response_ctx)
    (mark : list byte) (p : Z) (data : list byte)
    : Z * http_parser * _response_ctx :=
  match data with
  | [] =>
      let '(_, ctx1) := callback_body ctx mark in (p, parser, ctx1)
  | ch :: rest =>
      match state parser with
      | s_dead => (p, parser, ctx)
      | s_headers h =>
          match header_step h ch with
          | h_error => (p, set_state parser s_dead, ctx)
          | h_continue h' =>
              http_parser_execute (set_state parser (s_headers h')) ctx mark (p + 1) rest
          | h_complete declared =>
              let parser1 :=
                {| state := s_headers h; content_length := to_size_t declared |} in
              let '(r, ctx1) := request_parse_header_complete parser1 ctx in
              if negb (r =? 0) then (p, set_state parser1 s_dead, ctx1)
              else if content_length parser1 =? 0 then
                let '(r2, ctx2) := request_parse_message_complete ctx1 in
                if negb (r2 =? 0) then (p + 1, set_state parser1 s_dead, ctx2)
                else http_parser_execute (set_state parser1 s_dead) ctx2 [] (p + 1) rest
              else if content_length parser1 =? UINT64_MAX then
                http_parser_execute (set_state parser1 s_body_identity_eof) ctx1 [] (p + 1) rest
              else
                http_parser_execute (set_state parser1 s_body_identity) ctx1 [] (p + 1) rest
          end
      | s_body_identity =>
          let mark1 := mark ++ [ch] in
          let remaining := content_length parser - 1 in
          if remaining =? 0 then
            let '(r, ctx1) := callback_body ctx mark1 in
            if negb (r =? 0) then (p, set_state parser s_dead, ctx1)
            else
              let '(r2, ctx2) := request_parse_message_complete ctx1 in
              if negb (r2 =? 0) then (p + 1, set_state parser s_dead, ctx2)
              else
                http_parser_execute
                  {| state := s_dead; content_length := remaining |}
                  ctx2 [] (p + 1) rest
          else
            http_parser_execute
              {| state := s_body_identity; content_length := remaining |}
              ctx mark1 (p + 1) rest
      | s_body_identity_eof =>
          http_parser_execute parser ctx (mark ++ [ch]) (p + 1) rest
      end
  end.
End Callbacks.

(** ** Request writer, response reader, one attempt, the retry loop *)

Definition status_eqb (a b : IOTA_REQUEST_STATUS) : bool :=
  match a, b with
  | IOTA_REQUEST_STATUS_OK, IOTA_REQUEST_STATUS_OK
  | IOTA_REQUEST_STATUS_DONE, IOTA_REQUEST_STATUS_DONE
  | IOTA_REQUEST_STATUS_ERROR, IOTA_REQUEST_STATUS_ERROR => true
  | _, _ => false
  end.

(** One call [mbedtls_socket_send(ctx, mem + ptr, size)]: its result, the
    rest of the script and the wire after it. *)
Definition mbedtls_socket_send (sends : list Z) (wire : list byte)
    (mem : gmap Z byte) (ptr size : Z) : option (Z * list Z * list byte) :=
  match sends with
  | [] => None
  | n :: sends' => Some (n, sends', wire ++ transmitted mem ptr size n)
  end.

(** The array [header] after the [sprintf] of [http_request_header].  The
    cells [0] to [1023] are the array; [sprintf] has no bound, and a cell
    from [1024] on stands for the memory after the array, where a store is
    outside the object. *)
Definition header_buffer (http_settings : http_info_t) (data_length : Z)
    : gmap Z byte :=
  sprintf (zeroed 1024)
    (header_template (path http_settings) (host http_settings)
       (api_version http_settings) (content_type http_settings)
       (accept http_settings) data_length).

(** The function sends what it formatted.  For a header of 1024 bytes or
    more the store of [sprintf] has left the array before the send call is
    reached, and C does not define what the program does from there on:
    the value below describes the function for headers that fit. *)
Definition http_request_header (sends : list Z) (wire : list byte)
    (http_settings : http_info_t) (data_length : Z)
    : option (Z * list Z * list byte) :=
  let header := header_buffer http_settings data_length in
  mbedtls_socket_send sends wire header 0 (strlen header).

(** [ptr] is the cursor into [data]; the function is entered with [0]. *)
Fixpoint http_request_data (sends : list Z) (wire : list byte)
    (data : gmap Z byte) (ptr data_length : Z)
    : option (retcode_t * list Z * list byte) :=
  if data_length >? 0 then
    match sends with
    | [] => None
    | num_sent :: sends' =>
        if num_sent <? 0 then Some (RC_UTILS_SOCKET_SEND, sends', wire)
        else
          http_request_data sends'
            (wire ++ transmitted data ptr data_length num_sent)
            data (ptr + num_sent) (to_size_t (data_length - num_sent))
    end
  else Some (RC_OK, sends, wire).

Section Exchange.
Context {G : HeaderGrammar} {B : CharBuffer}.

(** The [while] loop of [http_response_read] and the two returns after
    it. *)
Fixpoint http_response_read_loop (recvs : list recv_result)
    (parser : http_parser) (response_context : _response_ctx)
    : option (retcode_t * char_buffer_t) :=
  match recvs with
  | [] => None
  | r :: recvs' =>
      let num_received := num_received_of r in
      if num_received >? 0 then
        let '(parsed, parser1, ctx1) :=
          http_parser_execute parser response_context [] 0 (received_bytes r) in
        if (parsed <? num_received)
           || status_eqb (status ctx1) IOTA_REQUEST_STATUS_ERROR then
          Some (RC_UTILS_SOCKET_RECV, response ctx1)
        else if status_eqb (status ctx1) IOTA_REQUEST_STATUS_DONE then
          Some (RC_OK, response ctx1)
        else http_response_read_loop recvs' parser1 ctx1
      else if num_received <=? 0 then
        Some (RC_CCLIENT_HTTP, response response_context)
      else Some (RC_OK, response response_context)
  end.

Definition response_context_init (response : char_buffer_t) : _response_ctx :=
  {| response := response; offset := 0; status := IOTA_REQUEST_STATUS_OK |}.

Definition http_response_read (recvs : list recv_result)
    (response : char_buffer_t) : option (retcode_t * char_buffer_t) :=
  http_response_read_loop recvs http_parser_init (response_context_init response).

(** One attempt: the result, the caller's response buffer after it and
    the bytes put on the wire. *)
Definition cclient_socket_send (conn : connection)
    (service : iota_client_service_t) (obj response : char_buffer_t)
    : option (retcode_t * char_buffer_t * list byte) :=
  let http_settings := http service in
  if sockfd conn >=? 0 then
    '(sent, sends1, wire1) ←
      http_request_header (send_results conn) [] http_settings (buf_length obj);
    if negb (sent =? -1) then
      '(result, sends2, wire2) ←
        http_request_data sends1 wire1 (buf_data obj) 0 (buf_length obj);
      if retcode_eqb result RC_OK then
        '(result', response') ← http_response_read (recv_results conn) response;
        Some (result', response', wire2)
      else Some (result, response, wire2)
    else Some (RC_CCLIENT_HTTP_REQ, response, wire1)
  else Some (RC_UTILS_SOCKET_CONNECT, response, []).

Context {C : SocketConfig}.

(** The [while (ret == RC_UTILS_SOCKET_RECV)] loop of
    [iota_service_query]; [conns] are the connections the next attempts
    get and [attempts] counts the attempts made. *)
Fixpoint retry_loop (conns : list connection)
    (service : iota_client_service_t) (obj response : char_buffer_t)
    (ret : retcode_t) (retry : Z) (attempts : nat)
    : option (retcode_t * char_buffer_t * nat) :=
  if retcode_eqb ret RC_UTILS_SOCKET_RECV then
    if retry >? to_size_t CCLIENT_SOCKET_RETRY then Some (ret, response, attempts)
    else
      match conns with
      | [] => None
      | conn :: conns' =>
          '(ret', response', _) ← cclient_socket_send conn service obj response;
          retry_loop conns' service obj response' ret' (to_size_t (retry + 1))
            (S attempts)
      end
  else Some (ret, response, attempts).

(** A null pointer is [None].  The result is the return code, the
    caller's response buffer after the call and the number of attempts. *)
Definition iota_service_query (conns : list connection)
    (service_opaque : option iota_client_service_t)
    (obj response : option char_buffer_t)
    : option (retcode_t * option char_buffer_t * nat) :=
  match service_opaque, obj, response with
  | Some service, Some obj, Some response =>
      match conns with
      | [] => None
      | conn :: conns' =>
          '(ret, response1, _) ← cclient_socket_send conn service obj response;
          '(ret', response', n) ← retry_loop conns' service obj response1 ret 0 1%nat;
          Some (ret', Some response', n)
      end
  | _, _, _ => Some (RC_NULL_PARAM, response, 0%nat)
  end.
End Exchange.

(** ** A header grammar, an allocator and a configuration to run the code on *)

Fixpoint prefixb (p s : list byte) : bool :=
  match p, s with
  | [], _ => true
  | a :: p', b :: s' => Byte.eqb a b && prefixb p' s'
  | _ :: _, [] => false
  end.

(** Occurs as a run of consecutive bytes. *)
Fixpoint infixb (p s : list byte) : bool :=
  prefixb p s ||
  match s with
  | [] => false
  | _ :: s' => infixb p s'
  end.

Definition digit_value (b : byte) : option Z :=
  let n := Z.of_N (Byte.to_N b) in
  if (48 <=? n) && (n <=? 57) then Some (n - 48) else None.

Fixpoint digits_value (acc : Z) (s : list byte) : option Z :=
  match s with
  | [] => Some acc
  | b :: s' =>
      match digit_value b with
      | Some d => digits_value (10 * acc + d) s'
      | None => None
      end
  end.

Fixpoint skip_spaces (s : list byte) : list byte :=
  match s with
  | b :: s' => if Byte.eqb b " "%byte then skip_spaces s' else s
  | [] => []
  end.

Record line_state := {
  line : list byte;
  status_line : bool;
  declared_length : Z;
}.

Definition header_line (s : line_state) : header_result line_state :=
  let name := lit "Content-Length:" in
  if prefixb name (line s) then
    match skip_spaces (drop (length name) (line s)) with
    | [] => h_error
    | value =>
        match digits_value 0 value with
        | Some n => h_continue {| line := []; status_line := false; declared_length := n |}
        | None => h_error
        end
    end
  else if infixb (lit ":") (line s) then
    h_continue {| line := []; status_line := false; declared_length := declared_length s |}
  else h_error.

(** Modelled from the spec: the header states of [http_parser], by the
    response framing of section 6, a status line and a header block closed
    by an empty line, where the body length
    is the finite byte count a [Content-Length] field declares and a
    response without one has none ([UINT64_MAX]).  The status line starts
    with [HTTP/]; a line ends at [LF] and a [CR] is skipped. *)
Definition response_header_step (s : line_state) (b : byte)
    : header_result line_state :=
  if Byte.eqb b CR then h_continue s
  else if Byte.eqb b LF then
    match line s with
    | [] => if status_line s then h_error else h_complete (declared_length s)
    | _ =>
        if status_line s then
          if prefixb (lit "HTTP/") (line s) then
            h_continue {| line := []; status_line := false;
                          declared_length := declared_length s |}
          else h_error
        else header_line s
    end
  else
    let line1 := line s ++ [b] in
    if status_line s
       && negb (prefixb line1 (lit "HTTP/") || prefixb (lit "HTTP/") line1)
    then h_error
    else h_continue {| line := line1; status_line := status_line s;
                       declared_length := declared_length s |}.

Definition response_grammar : HeaderGrammar :=
  {| hstate := line_state;
     header_init := {| line := []; status_line := true; declared_length := UINT64_MAX |};
     header_step := response_header_step |}.

(** Modelled from the spec: [char_buffer_allocate] of [utils/char_buffer.h],
    which is not among the sources, as section 4.2 has it, "allocate ResponseBuffer with capacity =
    declared length": the buffer gets the size asked for and fresh
    memory. *)
Definition fresh_allocator : CharBuffer :=
  {| char_buffer_allocate := fun _ n => (RC_OK, {| buf_length := n; buf_data := ∅ |}) |}.

(** An allocator out of memory. *)
Definition exhausted_allocator : CharBuffer :=
  {| char_buffer_allocate := fun b _ => (RC_OOM, b) |}.

Definition retry_ceiling (n : Z) : SocketConfig := {| CCLIENT_SOCKET_RETRY := n |}.

(** ** Example data *)

Definition buffer_of (s : list byte) : char_buffer_t :=
  {| buf_length := Z.of_nat (length s); buf_data := memcpy ∅ 0 s |}.

Definition empty_buffer : char_buffer_t := {| buf_length := 0; buf_data := ∅ |}.

Definition example_service : iota_client_service_t :=
  {| http := {| path := lit "/api"; host := lit "node.example"; api_version := 1;
                content_type := lit "application/json";
                accept := lit "application/json" |} |}.

Definition example_body : char_buffer_t := buffer_of (lit "hello world").

Definition example_header : list byte :=
  header_template (lit "/api") (lit "node.example") 1 (lit "application/json")
    (lit "application/json") 11.

Definition response_head (n : list byte) : list byte :=
  lit "HTTP/1.1 200 OK" ++ crlf ++ lit "Content-Length: " ++ n ++ crlf ++ crlf.

Definition response_hello : list byte := response_head (lit "5") ++ lit "hello".

(** A response that states no length. *)
Definition response_undeclared : list byte :=
  lit "HTTP/1.1 200 OK" ++ crlf ++ lit "Connection: close" ++ crlf ++ crlf ++ lit "hello".

(** A connection on which both sends go through in one call each. *)
Definition conn_of (recvs : list recv_result) : connection :=
  {| sockfd := 3; send_results := [Z.of_nat (length example_header); 11];
     recv_results := recvs |}.

(** Settings whose path alone is as long as the header array. *)
Definition long_path_settings : http_info_t :=
  {| path := replicate 1024 "a"%byte; host := lit "node.example"; api_version := 1;
     content_type := lit "application/json"; accept := lit "application/json" |}.

Definition hello_buffer : char_buffer_t :=
  {| buf_length := 5; buf_data := memcpy ∅ 0 (lit "hello") |}.

Definition conn_hello : connection := conn_of [recv_data response_hello].

(** The response comes in two chunks, cut inside the header section. *)
Definition conn_hello_split : connection :=
  conn_of [recv_data (take 20 response_hello); recv_data (drop 20 response_hello)].

Definition conn_undeclared : connection := conn_of [recv_data response_undeclared].

(** The peer closes after two of the five body bytes. *)
Definition conn_cut : connection :=
  conn_of [recv_data (take 40 response_hello); recv_eof].

(** The complete response and three more bytes in the same chunk. *)
Definition conn_trailing : connection :=
  conn_of [recv_data (response_hello ++ lit "XYZ")].

Definition conn_closed : connection := conn_of [recv_eof].

(** The header send fails with a code other than [-1]. *)
Definition conn_header_send_fails : connection :=
  {| sockfd := 3; send_results := [-2; 11]; recv_results := [recv_data response_hello] |}.

(** The header section of a response read from state [h]: the length it
    declares and the bytes that follow the empty line. *)
Fixpoint header_section {G : HeaderGrammar} (h : hstate) (bs : list byte)
    : option (Z * list byte) :=
  match bs with
  | [] => None
  | b :: bs' =>
      match header_step h b with
      | h_continue h' => header_section h' bs'
      | h_complete declared => Some (declared, bs')
      | h_error => None
      end
  end.

(** A response whose header section is accepted and declares a finite
    length, followed by exactly that many body bytes. *)
Definition well_formed_response {G : HeaderGrammar} (bs body : list byte) : Prop :=
  exists declared,
    header_section header_init bs = Some (declared, body) /\
    to_size_t declared <> UINT64_MAX /\
    Z.of_nat (length body) = to_size_t declared.

(** The results of send calls that each take part of what is left and
    together take all of it. *)
Fixpoint sends_cover (results : list Z) (remaining : Z) : Prop :=
  match results with
  | [] => remaining = 0
  | n :: results' => 0 < remaining /\ 0 <= n <= remaining /\ sends_cover results' (remaining - n)
  end.

(** The context after [on_message_complete]. *)
Definition done (ctx : _response_ctx) : _response_ctx :=
  snd (request_parse_message_complete ctx).

(** The reader between two chunks of a response whose header section
    declares [declared] and is followed by [body], when [rest] is still to
    come: either it is inside the header section, with the context as
    [http_response_read] set it up, or it has stored the body bytes
    [written] into the buffer [buf] that the allocation gave. *)
Definition reading {G : HeaderGrammar} (response0 buf : char_buffer_t)
    (declared : Z) (body : list byte)
    (parser : http_parser) (ctx : _response_ctx) (rest : list byte) : Prop :=
  (exists h,
     parser = {| state := s_headers h; content_length := UINT64_MAX |} /\
     ctx = response_context_init response0 /\
     header_section h rest = Some (declared, body))
  \/
  (exists written,
     body = written ++ rest /\
     parser = {| state := s_body_identity;
                 content_length := to_size_t declared - Z.of_nat (length written) |} /\
     ctx = {| response := {| buf_length := buf_length buf;
                             buf_data := memcpy (buf_data buf) 0 written |};
              offset := Z.of_nat (length written);
              status := IOTA_REQUEST_STATUS_OK |}).

(** An attempt on [conn] ends with the code [ret], whatever the response
    buffer holds when it starts. *)
Definition attempt_gives {G : HeaderGrammar} {B : CharBuffer}
    (service : iota_client_service_t) (obj : char_buffer_t) (ret : retcode_t)
    (conn : connection) : Prop :=
  forall response, exists response' wire,
    cclient_socket_send conn service obj response = Some (ret, response', wire).

(** Attempts made one after the other on the caller's response buffer,
    each on the buffer as the one before left it, when every one of them
    ends in [RC_UTILS_SOCKET_RECV]: the buffer after the last.  [None]
    when an attempt gives another code or no result. *)
Fixpoint failed_attempts {G : HeaderGrammar} {B : CharBuffer}
    (service : iota_client_service_t) (obj : char_buffer_t)
    (conns : list connection) (response : char_buffer_t) : option char_buffer_t :=
  match conns with
  | [] => Some response
  | conn :: conns' =>
      match cclient_socket_send conn service obj response with
      | Some (RC_UTILS_SOCKET_RECV, response', _) =>
          failed_attempts service obj conns' response'
      | _ => None
      end
  end.

(** The buffer [b] is the buffer [buf] with the bytes [written] stored
    from its first cell on: the length field is that of [buf], cell [k]
    holds the [k]-th of the bytes, and every cell outside
    [0 .. length written - 1] is as it is in [buf]. *)
Definition stored_from_start (buf b : char_buffer_t) (written : list byte) : Prop :=
  buf_length b = buf_length buf /\
  (forall k, (k < length written)%nat -> buf_data b !! Z.of_nat k = written !! k) /\
  (forall i, ~ (0 <= i < Z.of_nat (length written)) ->
     buf_data b !! i = buf_data buf !! i).

(** The reader between two receive calls of one [http_response_read] on
    the caller's buffer [response0], whatever bytes came so far: it is
    inside the header section, with the context as it was set up, or it is
    inside the body of a response that declared a finite length for which
    the allocation gave [buf], and has stored [written], fewer bytes than
    declared, from the start of [buf]. *)
Definition between_chunks {G : HeaderGrammar} {B : CharBuffer}
    (response0 : char_buffer_t) (parser : http_parser) (ctx : _response_ctx) : Prop :=
  (exists h,
     parser = {| state := s_headers h; content_length := UINT64_MAX |} /\
     ctx = response_context_init response0)
  \/
  (exists declared buf written,
     to_size_t declared <> UINT64_MAX /\
     char_buffer_allocate response0 (to_size_t declared) = (RC_OK, buf) /\
     Z.of_nat (length written) < to_size_t declared /\
     parser = {| state := s_body_identity;
                 content_length := to_size_t declared - Z.of_nat (length written) |} /\
     ctx = {| response := {| buf_length := buf_length buf;
                             buf_data := memcpy (buf_data buf) 0 written |};
              offset := Z.of_nat (length written);
              status := IOTA_REQUEST_STATUS_OK |}).

(** What [http_response_read] on the caller's buffer [response0] leaves in
    it when it returns [r] with the buffer [b].  Either nothing was
    allocated: the buffer is untouched and [r] is not [RC_OK].  Or the
    header section declared a finite length, for which the allocation
    answered [rc] and left [buf]: when the allocation failed, [b] is [buf]
    and [r] is [RC_UTILS_SOCKET_RECV]; when it succeeded, [b] is [buf] with
    no more bytes than declared stored from its start, and with exactly as
    many as declared when [r] is [RC_OK]. *)
Definition within_declared_length {B : CharBuffer}
    (response0 : char_buffer_t) (r : retcode_t) (b : char_buffer_t) : Prop :=
  (b = response0 /\ r <> RC_OK) \/
  (exists declared rc buf,
     to_size_t declared <> UINT64_MAX /\
     char_buffer_allocate response0 (to_size_t declared) = (rc, buf) /\
     ((rc <> RC_OK /\ b = buf /\ r = RC_UTILS_SOCKET_RECV) \/
      (rc = RC_OK /\
       exists written,
         Z.of_nat (length written) <= to_size_t declared /\
         stored_from_start buf b written /\
         (r = RC_OK -> Z.of_nat (length written) = to_size_t declared)))).

(** ** Definitions for the further properties *)

(** The results of send calls that each take part of what is left and
    together leave some of it. *)
Fixpoint sends_leave (results : list Z) (remaining : Z) : Prop :=
  match results with
  | [] => 0 < remaining
  | n :: results' => 0 <= n <= remaining /\ sends_leave results' (remaining - n)
  end.

(** The number of bytes a list of send results reports. *)
Definition total_sent (results : list Z) : Z := foldr Z.add 0 results.

(** How far the header grammar gets on [bs] from state [h]: to the end of
    the bytes, to the end of the header section, or to a byte it rejects
    (the first of [rest]). *)
Inductive header_scan_result {G : HeaderGrammar} :=
| scan_incomplete (h : hstate)
| scan_complete (declared : Z) (rest : list byte)
| scan_rejected (rest : list byte).

Fixpoint header_scan {G : HeaderGrammar} (h : hstate) (bs : list byte)
    : header_scan_result :=
  match bs with
  | [] => scan_incomplete h
  | b :: bs' =>
      match header_step h b with
      | h_continue h' => header_scan h' bs'
      | h_complete declared => scan_complete declared bs'
      | h_error => scan_rejected (b :: bs')
      end
  end.

(** Every attempt on the connection gives a result, whatever the response
    buffer holds when it starts. *)
Definition attempt_returns {G : HeaderGrammar} {B : CharBuffer}
    (service : iota_client_service_t) (obj : char_buffer_t)
    (conn : connection) : Prop :=
  forall response, is_Some (cclient_socket_send conn service obj response).

(** The codes of one attempt. *)
Definition attempt_code (r : retcode_t) : Prop :=
  r = RC_OK \/ r = RC_UTILS_SOCKET_CONNECT \/ r = RC_CCLIENT_HTTP_REQ \/
  r = RC_UTILS_SOCKET_SEND \/ r = RC_UTILS_SOCKET_RECV \/ r = RC_CCLIENT_HTTP.

(** A response whose second line is no header field. *)
Definition response_malformed : list byte :=
  lit "HTTP/1.1 200 OK" ++ crlf ++ lit "garbage" ++ crlf ++ crlf.

(** * Properties *)

(** ** Integers and memory *)

Lemma to_size_t_range z : 0 <= to_size_t z < 2 ^ 64.
Proof. unfold to_size_t. apply Z.mod_pos_bound. lia. Qed.

Lemma to_size_t_small z : 0 <= z < 2 ^ 64 -> to_size_t z = z.
Proof. intros H. unfold to_size_t. now apply Z.mod_small. Qed.

Lemma memcpy_app dest at_ (a b : list byte) :
  memcpy dest at_ (a ++ b) = memcpy (memcpy dest at_ a) (at_ + Z.of_nat (length a)) b.
Proof.
  revert dest at_. induction a as [|x a IH]; intros dest at_; cbn [app memcpy length].
  - now rewrite Z.add_0_r.
  - rewrite IH. f_equal. lia.
Qed.

Lemma memcpy_lookup_out dest at_ (src : list byte) i :
  ~ (at_ <= i < at_ + Z.of_nat (length src)) ->
  memcpy dest at_ src !! i = dest !! i.
Proof.
  revert dest at_. induction src as [|x src IH]; intros dest at_ Hout;
    cbn [memcpy length] in *.
  - reflexivity.
  - rewrite IH by lia. apply lookup_insert_ne. lia.
Qed.

Lemma memcpy_lookup_in dest at_ (src : list byte) (k : nat) :
  (k < length src)%nat ->
  memcpy dest at_ src !! (at_ + Z.of_nat k) = src !! k.
Proof.
  revert dest at_ k. induction src as [|x src IH]; intros dest at_ k Hk;
    cbn [memcpy length] in *.
  - lia.
  - destruct k as [|k].
    + rewrite Z.add_0_r, memcpy_lookup_out by lia. apply lookup_insert_eq.
    + replace (at_ + Z.of_nat (S k)) with (at_ + 1 + Z.of_nat k) by lia.
      apply IH. lia.
Qed.

Lemma read_memcpy dest (src : list byte) :
  read (memcpy dest 0 src) 0 (Z.of_nat (length src)) = src.
Proof.
  unfold read. apply list_eq. intros k.
  rewrite list_lookup_fmap.
  destruct (decide (k < length src)%nat) as [Hk|Hk].
  - rewrite lookup_seqZ_lt by lia. simpl.
    rewrite (memcpy_lookup_in dest 0 src k Hk).
    destruct (lookup_lt_is_Some_2 src k Hk) as [b Hb]. now rewrite Hb.
  - rewrite lookup_seqZ_ge by lia. simpl. symmetry. apply lookup_ge_None. lia.
Qed.

(** The caller reads back the bytes that were stored from offset 0, when
    the buffer has their number as its size. *)
Lemma buffer_bytes_stored (buf : char_buffer_t) (body : list byte) :
  buf_length buf = Z.of_nat (length body) ->
  buffer_bytes {| buf_length := buf_length buf;
                  buf_data := memcpy (buf_data buf) 0 body |} = body.
Proof. intros H. unfold buffer_bytes. cbn. rewrite H. apply read_memcpy. Qed.

Lemma retcode_eqb_eq a b : retcode_eqb a b = true <-> a = b.
Proof. destruct a, b; cbn; split; intros H; congruence. Qed.

Lemma retcode_eqb_neq a b : a <> b -> retcode_eqb a b = false.
Proof.
  intros H. destruct (retcode_eqb a b) eqn:E; [|reflexivity].
  apply retcode_eqb_eq in E. contradiction.
Qed.

Lemma stored_from_start_memcpy (buf : char_buffer_t) (written : list byte) :
  stored_from_start buf
    {| buf_length := buf_length buf; buf_data := memcpy (buf_data buf) 0 written |}
    written.
Proof.
  split; [reflexivity|]. split; cbn [buf_data].
  - intros k Hk. rewrite <- (Z.add_0_l (Z.of_nat k)). now apply memcpy_lookup_in.
  - intros i Hi. apply memcpy_lookup_out. lia.
Qed.

(** ** The store of the body callback *)

(** Inside the first [2^64] cells the store through the moved pointer is
    the plain store. *)
Lemma memcpy_at_small (src : list byte) : forall dest offset,
  0 <= offset ->
  offset + Z.of_nat (length src) <= 2 ^ 64 ->
  memcpy_at dest offset src = memcpy dest offset src.
Proof.
  induction src as [|x src IH]; intros dest offset H0 Hmax; cbn [memcpy_at memcpy length] in *.
  - reflexivity.
  - rewrite to_size_t_small by lia. apply IH; lia.
Qed.

Lemma memcpy_at_app dest offset (a b : list byte) :
  memcpy_at dest offset (a ++ b) =
    memcpy_at (memcpy_at dest offset a) (offset + Z.of_nat (length a)) b.
Proof.
  revert dest offset. induction a as [|x a IH]; intros dest offset;
    cbn [app memcpy_at length].
  - now rewrite Z.add_0_r.
  - rewrite IH. f_equal. lia.
Qed.

(** Only the offset modulo [2^64] matters. *)
Lemma memcpy_at_congruent (src : list byte) : forall dest offset offset',
  to_size_t offset = to_size_t offset' ->
  memcpy_at dest offset src = memcpy_at dest offset' src.
Proof.
  induction src as [|x src IH]; intros dest offset offset' H; cbn [memcpy_at].
  - reflexivity.
  - rewrite H. apply IH. unfold to_size_t in *.
    rewrite (Z.add_mod offset), (Z.add_mod offset'), H by lia. reflexivity.
Qed.

(** A body event that does not reach the cell [2^64]. *)
Lemma request_parse_data_small (ctx : _response_ctx) (at_ : list byte) :
  0 <= offset ctx ->
  offset ctx + Z.of_nat (length at_) < 2 ^ 64 ->
  request_parse_data ctx at_ =
    (0, {| response := {| buf_length := buf_length (response ctx);
                          buf_data := memcpy (buf_data (response ctx)) (offset ctx) at_ |};
           offset := offset ctx + Z.of_nat (length at_);
           status := status ctx |}).
Proof.
  intros H0 H1. unfold request_parse_data.
  rewrite to_size_t_small, memcpy_at_small by lia. reflexivity.
Qed.

(** ** The request writer *)

(** *** What [%lu] prints *)

Lemma lit_cons c s : lit (String c s) = Ascii.byte_of_ascii c :: lit s.
Proof. reflexivity. Qed.

Ltac digit_step IH :=
  rewrite lit_cons; cbn [digits_value];
  match goal with |- context [digit_value ?b] =>
    let v := eval vm_compute in (digit_value b) in change (digit_value b) with v
  end;
  cbv iota beta.

Lemma digits_value_acc d : forall acc : positive,
  digits_value (Z.pos acc) (lit (NilEmpty.string_of_uint d)) =
    Some (Z.pos (Pos.of_uint_acc d acc)).
Proof.
  induction d; intros acc; cbn [NilEmpty.string_of_uint Pos.of_uint_acc];
    [reflexivity | digit_step IHd ..].
  all: match goal with
       | |- digits_value ?x _ = Some (Z.pos (Pos.of_uint_acc _ ?a)) =>
           replace x with (Z.pos a) by lia; apply IHd
       end.
Qed.

Lemma digits_value_uint d :
  digits_value 0 (lit (NilEmpty.string_of_uint d)) = Some (Z.of_N (Pos.of_uint d)).
Proof.
  induction d; cbn [NilEmpty.string_of_uint Pos.of_uint];
    [reflexivity | digit_step IHd ..].
  1: exact IHd.
  all: cbn [Z.of_N];
    match goal with
    | |- digits_value ?x _ = Some (Z.pos (Pos.of_uint_acc _ ?a)) =>
        change x with (Z.pos a); apply digits_value_acc
    end.
Qed.

(** The digits that [%lu] prints read back as the number printed. *)
Lemma fmt_lu_value z : 0 <= z -> digits_value 0 (fmt_lu z) = Some z.
Proof.
  intros Hz. unfold fmt_lu, NilZero.string_of_uint.
  destruct (N.to_uint (Z.to_N z)) eqn:E.
  1: { destruct (Z.to_N z) as [|p]; [discriminate|].
       pose proof (DecimalN.Unsigned.of_to (N.pos p)) as H.
       rewrite E in H. discriminate. }
  all: rewrite <- E, digits_value_uint;
    change (Pos.of_uint (N.to_uint (Z.to_N z))) with (N.of_uint (N.to_uint (Z.to_N z)));
    rewrite DecimalN.Unsigned.of_to; f_equal; lia.
Qed.

(** *** The formatted header as a C string *)

Lemma no_nul_app a b : no_nul (a ++ b) = no_nul a && no_nul b.
Proof. apply forallb_app. Qed.

Lemma no_nul_c_str s : no_nul (c_str s) = true.
Proof.
  induction s as [|b s IH]; [reflexivity|]. cbn [c_str].
  destruct (is_nul b) eqn:E; [reflexivity|]. cbn. now rewrite E.
Qed.

Lemma no_nul_uint d : no_nul (lit (NilEmpty.string_of_uint d)) = true.
Proof.
  induction d; cbn [NilEmpty.string_of_uint]; [reflexivity|rewrite lit_cons..];
    cbn [no_nul forallb]; fold (no_nul (lit (NilEmpty.string_of_uint d))); now rewrite IHd.
Qed.

Lemma no_nul_uint0 d : no_nul (lit (NilZero.string_of_uint d)) = true.
Proof. destruct d; try apply no_nul_uint. reflexivity. Qed.

Lemma no_nul_fmt_lu z : no_nul (fmt_lu z) = true.
Proof. apply no_nul_uint0. Qed.

Lemma no_nul_fmt_d z : no_nul (fmt_d z) = true.
Proof.
  unfold fmt_d, NilZero.string_of_int. destruct (Z.to_int z).
  - apply no_nul_uint0.
  - rewrite lit_cons. cbn [no_nul forallb]. apply no_nul_uint0.
Qed.

(** Whatever the settings, the formatted header holds no [NUL]. *)
Lemma no_nul_header_template p h v c a n : no_nul (header_template p h v c a n) = true.
Proof.
  unfold header_template, fmt_s.
  rewrite !no_nul_app, !no_nul_c_str, no_nul_fmt_d, no_nul_fmt_lu. reflexivity.
Qed.

Lemma no_nul_lookup s (k : nat) b : no_nul s = true -> s !! k = Some b -> is_nul b = false.
Proof.
  revert k. induction s as [|x s IH]; intros k Hs Hk; [discriminate|].
  cbn [no_nul forallb] in Hs. apply andb_prop in Hs as [Hx Hs].
  destruct k as [|k]; cbn in Hk.
  - injection Hk as <-. now destruct (is_nul x).
  - eauto.
Qed.

(** A memory with the cells [0 .. n-1] mapped has at least [n] cells. *)
Lemma size_at_least (mem : gmap Z byte) (n : nat) :
  (forall k : nat, (k < n)%nat -> is_Some (mem !! Z.of_nat k)) -> (n <= size mem)%nat.
Proof.
  intros H. rewrite <- (size_dom (D:=gset Z)).
  replace n with (size (list_to_set (C:=gset Z) (seqZ 0 (Z.of_nat n)))).
  - apply subseteq_size. intros i Hi.
    apply elem_of_list_to_set, elem_of_seqZ in Hi.
    apply elem_of_dom. replace i with (Z.of_nat (Z.to_nat i)) by lia. apply H. lia.
  - rewrite size_list_to_set by apply NoDup_seqZ. rewrite length_seqZ. lia.
Qed.

Lemma strlen_from_c_string (mem : gmap Z byte) (f : list byte) :
  no_nul f = true ->
  (forall k : nat, (k < length f)%nat -> mem !! Z.of_nat k = f !! k) ->
  mem !! Z.of_nat (length f) = Some NUL ->
  forall fuel k, (k <= length f)%nat -> (length f - k < fuel)%nat ->
  strlen_from mem (Z.of_nat k) fuel = Z.of_nat (length f - k).
Proof.
  intros Hf Hin Hend. induction fuel as [|fuel IH]; intros k Hk Hfuel; [lia|].
  cbn [strlen_from].
  destruct (decide (k = length f)) as [->|Hne].
  - rewrite Hend. cbn. lia.
  - rewrite Hin by lia.
    destruct (lookup_lt_is_Some_2 f k ltac:(lia)) as [b Hb]. rewrite Hb.
    rewrite (no_nul_lookup f k b Hf Hb).
    replace (Z.of_nat k + 1) with (Z.of_nat (S k)) by lia.
    rewrite IH by lia. lia.
Qed.

Lemma sprintf_lookup_in dest (f : list byte) (k : nat) :
  (k < length f)%nat -> sprintf dest f !! Z.of_nat k = f !! k.
Proof.
  intros Hk. unfold sprintf.
  rewrite <- (Z.add_0_l (Z.of_nat k)), memcpy_lookup_in by (rewrite length_app; lia).
  now apply lookup_app_l.
Qed.

Lemma sprintf_lookup_end dest (f : list byte) :
  sprintf dest f !! Z.of_nat (length f) = Some NUL.
Proof.
  unfold sprintf.
  rewrite <- (Z.add_0_l (Z.of_nat (length f))), memcpy_lookup_in
    by (rewrite length_app; cbn; lia).
  rewrite lookup_app_r by lia. now rewrite Nat.sub_diag.
Qed.

(** [strlen] after [sprintf] is the number of characters formatted. *)
Lemma strlen_sprintf dest (f : list byte) :
  no_nul f = true -> strlen (sprintf dest f) = Z.of_nat (length f).
Proof.
  intros Hf. unfold strlen.
  rewrite (strlen_from_c_string (sprintf dest f) f Hf
             (sprintf_lookup_in dest f) (sprintf_lookup_end dest f) _ 0%nat).
  - lia.
  - lia.
  - assert (S (length f) <= size (sprintf dest f))%nat; [|lia].
    apply size_at_least. intros k Hk.
    destruct (decide (k = length f)) as [->|Hne].
    + rewrite sprintf_lookup_end. eauto.
    + rewrite sprintf_lookup_in by lia. apply lookup_lt_is_Some_2. lia.
Qed.

Lemma read_sprintf dest (f : list byte) :
  read (sprintf dest f) 0 (Z.of_nat (length f)) = f.
Proof.
  unfold read. apply list_eq. intros k. rewrite list_lookup_fmap.
  destruct (decide (k < length f)%nat) as [Hk|Hk].
  - rewrite lookup_seqZ_lt by lia. cbn [fmap option_fmap option_map]. rewrite Z.add_0_l.
    rewrite sprintf_lookup_in by exact Hk.
    destruct (lookup_lt_is_Some_2 f k Hk) as [b Hb]. now rewrite Hb.
  - rewrite lookup_seqZ_ge by lia. symmetry. apply lookup_ge_None. lia.
Qed.

Lemma zeroed_lookup n i :
  zeroed n !! i = if decide (0 <= i < n) then Some NUL else None.
Proof.
  unfold zeroed. case_decide as Hi.
  - replace i with (0 + Z.of_nat (Z.to_nat i)) by lia.
    rewrite memcpy_lookup_in by (rewrite length_replicate; lia).
    apply lookup_replicate_2. lia.
  - rewrite memcpy_lookup_out by (rewrite length_replicate; lia). apply lookup_empty.
Qed.

Lemma read_app mem ptr n1 n2 :
  0 <= n1 -> 0 <= n2 -> read mem ptr (n1 + n2) = read mem ptr n1 ++ read mem (ptr + n1) n2.
Proof. intros H1 H2. unfold read. now rewrite seqZ_app, fmap_app. Qed.

Lemma read_memcpy_prefix dest (a b : list byte) :
  read (memcpy dest 0 (a ++ b)) 0 (Z.of_nat (length a)) = a.
Proof.
  unfold read. apply list_eq. intros k. rewrite list_lookup_fmap.
  destruct (decide (k < length a)%nat) as [Hk|Hk].
  - rewrite lookup_seqZ_lt by lia. cbn [fmap option_fmap option_map].
    rewrite memcpy_lookup_in by (rewrite length_app; lia).
    rewrite lookup_app_l by exact Hk.
    destruct (lookup_lt_is_Some_2 a k Hk) as [x Hx]. now rewrite Hx.
  - rewrite lookup_seqZ_ge by lia. symmetry. apply lookup_ge_None. lia.
Qed.

(** *** The body loop and the header send *)

Lemma read_nonpos mem ptr n : n <= 0 -> read mem ptr n = [].
Proof.
  intros Hn. unfold read. replace (seqZ ptr n) with (@nil Z); [reflexivity|].
  symmetry. apply length_zero_iff_nil. rewrite length_seqZ. lia.
Qed.

Lemma http_request_data_done sends wire data ptr :
  http_request_data sends wire data ptr 0 = Some (RC_OK, sends, wire).
Proof. now destruct sends. Qed.

Lemma http_request_data_step num_sent sends wire data ptr data_length :
  0 < data_length -> 0 <= num_sent ->
  http_request_data (num_sent :: sends) wire data ptr data_length =
    http_request_data sends (wire ++ transmitted data ptr data_length num_sent) data
      (ptr + num_sent) (to_size_t (data_length - num_sent)).
Proof.
  intros Hlen Hn. cbn [http_request_data].
  destruct (Z.gtb_spec data_length 0); [|lia].
  destruct (Z.ltb_spec num_sent 0); [lia|reflexivity].
Qed.

(** A negative result ends the body loop with [RC_UTILS_SOCKET_SEND]. *)
Lemma http_request_data_error num_sent sends wire data ptr data_length :
  0 < data_length -> num_sent < 0 ->
  http_request_data (num_sent :: sends) wire data ptr data_length =
    Some (RC_UTILS_SOCKET_SEND, sends, wire).
Proof.
  intros Hlen Hn. cbn [http_request_data].
  destruct (Z.gtb_spec data_length 0); [|lia].
  destruct (Z.ltb_spec num_sent 0); [reflexivity|lia].
Qed.

(** Partial sends: the cursor moves by what each call reports, and when
    the reports add up to the length the whole body is on the wire, in
    order. *)
Lemma http_request_data_partial_sends data rest : forall results wire ptr data_length,
  sends_cover results data_length ->
  data_length < 2 ^ 64 ->
  http_request_data (results ++ rest) wire data ptr data_length =
    Some (RC_OK, rest, wire ++ read data ptr data_length).
Proof.
  induction results as [|n results IH]; intros wire ptr data_length Hcover Hmax;
    cbn [sends_cover] in Hcover.
  - subst data_length. cbn [app]. rewrite http_request_data_done.
    now rewrite read_nonpos, app_nil_r by lia.
  - destruct Hcover as (Hpos & Hn & Hcover). cbn [app].
    rewrite http_request_data_step by lia.
    rewrite to_size_t_small by lia.
    rewrite IH by (auto; lia).
    unfold transmitted. rewrite Z.min_l by lia.
    rewrite <- app_assoc, <- read_app by lia.
    replace (n + (data_length - n)) with data_length by lia. reflexivity.
Qed.

Lemma header_buffer_strlen settings data_length :
  strlen (header_buffer settings data_length) =
    Z.of_nat (length (header_template (path settings) (host settings)
      (api_version settings) (content_type settings) (accept settings) data_length)).
Proof. unfold header_buffer. apply strlen_sprintf, no_nul_header_template. Qed.

(** The header send: one call with the whole formatted header; what is on
    the wire is as much of it as the call reports. *)
Lemma http_request_header_eq n sends wire settings data_length :
  let header := header_template (path settings) (host settings)
      (api_version settings) (content_type settings) (accept settings) data_length in
  http_request_header (n :: sends) wire settings data_length =
    Some (n, sends, wire ++ take (Z.to_nat n) header).
Proof.
  intros header. unfold http_request_header, mbedtls_socket_send, transmitted.
  rewrite header_buffer_strlen. fold header. do 3 f_equal.
  unfold header_buffer. fold header.
  destruct (Z.le_gt_cases n 0) as [Hn|Hn].
  - rewrite read_nonpos by lia. replace (Z.to_nat n) with 0%nat by lia. reflexivity.
  - destruct (Z.le_gt_cases (Z.of_nat (length header)) n) as [Hge|Hlt].
    + rewrite Z.min_r by lia. rewrite read_sprintf. symmetry. apply take_ge. lia.
    + rewrite Z.min_l by lia.
      assert (Hn' : n = Z.of_nat (length (take (Z.to_nat n) header)))
        by (rewrite length_take; lia).
      rewrite Hn' at 1.
      rewrite <- (take_drop (Z.to_nat n) header) at 1.
      unfold sprintf. rewrite <- app_assoc. apply read_memcpy_prefix.
Qed.

(** ** C5, C6, C9: what goes on the wire *)

Section Writer.
Context {G : HeaderGrammar} {B : CharBuffer}.

(** C5, as the code has it: the version line of the header is
    [X-IOTA-API-Version: <version>].  On a connection whose first send
    call takes the whole header and whose next send calls take the body
    piece by piece, the attempt puts on the wire the header below, closed
    by an empty line, and after it the bytes of the body unchanged; the
    digits of its [Content-Length] field read as the length of the
    body. *)
Theorem request_wire_format conn service obj response results rest :
  let settings := http service in
  let header :=
    lit "POST " ++ c_str (path settings) ++ lit " HTTP/1.1" ++ crlf ++
    lit "Host: " ++ c_str (host settings) ++ crlf ++
    lit "X-IOTA-API-Version: " ++ fmt_d (api_version settings) ++ crlf ++
    lit "Content-Type: " ++ c_str (content_type settings) ++ crlf ++
    lit "Accept: " ++ c_str (accept settings) ++ crlf ++
    lit "Content-Length: " ++ fmt_lu (buf_length obj) ++ crlf ++
    crlf in
  0 <= sockfd conn ->
  0 <= buf_length obj < 2 ^ 64 ->
  Z.of_nat (length header) < 1024 ->
  send_results conn = Z.of_nat (length header) :: results ++ rest ->
  sends_cover results (buf_length obj) ->
  digits_value 0 (fmt_lu (buf_length obj)) = Some (buf_length obj) /\
  cclient_socket_send conn service obj response =
    (fun '(r, b) => (r, b, header ++ buffer_bytes obj)) <$>
      http_response_read (recv_results conn) response.
Proof.
  intros settings header Hfd Hlen Hfit Hsends Hcover.
  split; [apply fmt_lu_value; lia|].
  unfold cclient_socket_send. fold settings.
  destruct (Z.geb_spec (sockfd conn) 0) as [_|]; [|lia].
  rewrite Hsends.
  pose proof (http_request_header_eq (Z.of_nat (length header)) (results ++ rest) []
                settings (buf_length obj)) as Hhdr.
  cbv zeta in Hhdr. change (header_template _ _ _ _ _ _) with header in Hhdr.
  rewrite Hhdr. cbn [mbind option_bind].
  rewrite Nat2Z.id, firstn_all. cbn [app].
  destruct (Z.eqb_spec (Z.of_nat (length header)) (-1)) as [E|_]; [lia|].
  cbn [negb].
  rewrite (http_request_data_partial_sends (buf_data obj) rest results header 0
             (buf_length obj) Hcover ltac:(lia)).
  cbn [mbind option_bind retcode_eqb].
  destruct (http_response_read (recv_results conn) response) as [[r b]|]; reflexivity.
Qed.

(** C6 at the header send: a negative result other than [-1] does not
    end the attempt.  Nothing of the header is on the wire, and the
    attempt goes on to send the body and, if that succeeds, to read the
    response. *)
Theorem header_send_error_goes_unnoticed conn service obj response sent sends :
  0 <= sockfd conn ->
  send_results conn = sent :: sends ->
  sent < 0 ->
  sent <> -1 ->
  cclient_socket_send conn service obj response =
    '(result, sends2, wire2) ←
      http_request_data sends [] (buf_data obj) 0 (buf_length obj);
    if retcode_eqb result RC_OK then
      '(result', response') ← http_response_read (recv_results conn) response;
      Some (result', response', wire2)
    else Some (result, response, wire2).
Proof.
  intros Hfd Hsends Hneg Hne. unfold cclient_socket_send.
  destruct (Z.geb_spec (sockfd conn) 0) as [_|]; [|lia].
  rewrite Hsends, http_request_header_eq. cbn [mbind option_bind].
  replace (Z.to_nat sent) with 0%nat by lia. cbn [take app].
  destruct (Z.eqb_spec sent (-1)) as [E|_]; [contradiction|]. reflexivity.
Qed.

(** C9, as the code has it: the header is formatted by [sprintf], which
    has no bound, and nothing in [http_request_header] looks at its
    length.  A formatted header shorter than 1024 bytes is stored, with
    its terminator, inside the array, and the result of the function is
    the result of the send call.  A header of 1024 bytes or more is stored
    all the same: every cell from index 1024 up to its length, past the
    end of the array, receives its byte of the header or the terminator.
    That store is outside the object; of what the program does after it
    nothing is stated. *)
Theorem header_format_is_unbounded settings data_length :
  let header := header_template (path settings) (host settings)
      (api_version settings) (content_type settings) (accept settings) data_length in
  (Z.of_nat (length header) < 1024 ->
     (forall i, is_Some (header_buffer settings data_length !! i) -> 0 <= i < 1024) /\
     (forall n sends wire,
        http_request_header (n :: sends) wire settings data_length =
          Some (n, sends, wire ++ take (Z.to_nat n) header))) /\
  (1024 <= Z.of_nat (length header) ->
     forall k, (1024 <= k <= length header)%nat ->
     header_buffer settings data_length !! Z.of_nat k = (header ++ [NUL]) !! k /\
     is_Some (header_buffer settings data_length !! Z.of_nat k)).
Proof.
  intros header. split.
  - intros Hfit. split.
    + unfold header_buffer. fold header. unfold sprintf. intros i Hi.
      destruct (decide (0 <= i < Z.of_nat (length (header ++ [NUL])))) as [Hin|Hout].
      * rewrite length_app in Hin. cbn [length] in Hin. lia.
      * rewrite memcpy_lookup_out, zeroed_lookup in Hi by lia.
        case_decide; [lia|]. now destruct Hi.
    + intros n sends wire. apply http_request_header_eq.
  - intros Hlong k Hk. unfold header_buffer. fold header. unfold sprintf.
    assert (Hin : (k < length (header ++ [NUL]))%nat)
      by (rewrite length_app; cbn [length]; lia).
    rewrite <- (Z.add_0_l (Z.of_nat k)), memcpy_lookup_in by exact Hin.
    split; [reflexivity|]. now apply lookup_lt_is_Some_2.
Qed.
End Writer.

(** ** The parser run over a chunk *)

(** Equal up to integer arithmetic inside pairs and records. *)
Ltac eq_arith := repeat first [reflexivity | lia | progress f_equal].

Section Reader.
Context {G : HeaderGrammar} {B : CharBuffer}.

Lemma callback_body_eq (ctx : _response_ctx) (mark : list byte) :
  0 <= offset ctx ->
  offset ctx + Z.of_nat (length mark) < 2 ^ 64 ->
  callback_body ctx mark =
    (0, {| response := {| buf_length := buf_length (response ctx);
                          buf_data := memcpy (buf_data (response ctx)) (offset ctx) mark |};
           offset := offset ctx + Z.of_nat (length mark);
           status := status ctx |}).
Proof.
  intros H0 H1. destruct mark as [|b mark].
  - destruct ctx as [[len mem] off st]. cbn. now rewrite Z.add_0_r.
  - unfold callback_body. now apply request_parse_data_small.
Qed.

Lemma callback_body_cons (ctx : _response_ctx) (mark : list byte) (ch : byte) :
  callback_body ctx (mark ++ [ch]) = request_parse_data ctx (mark ++ [ch]).
Proof. now destruct mark. Qed.

(** Fewer body bytes than are still expected: all are consumed and handed
    to [on_body] in one run, and the parser stays in the body. *)
Lemma execute_body_short (a : list byte) : forall c ctx mark p,
  Z.of_nat (length a) < c ->
  http_parser_execute {| state := s_body_identity; content_length := c |} ctx mark p a =
    (p + Z.of_nat (length a),
     {| state := s_body_identity; content_length := c - Z.of_nat (length a) |},
     snd (callback_body ctx (mark ++ a))).
Proof.
  induction a as [|ch a IH]; intros c ctx mark p Hlt; cbn [length] in Hlt.
  - cbn [http_parser_execute length]. rewrite app_nil_r, Z.add_0_r, Z.sub_0_r.
    now destruct (callback_body ctx mark).
  - cbn [http_parser_execute state content_length length].
    destruct (Z.eqb_spec (c - 1) 0) as [E|E]; [lia|].
    rewrite IH by lia. rewrite <- app_assoc. cbn [app].
    eq_arith.
Qed.

(** After the message is complete the parser consumes nothing. *)
Lemma execute_dead (a : list byte) c ctx p :
  http_parser_execute {| state := s_dead; content_length := c |} ctx [] p a =
    (p, {| state := s_dead; content_length := c |}, ctx).
Proof. now destruct a. Qed.

(** The body bytes still expected and whatever follows them in the chunk:
    the last expected byte is followed by [on_message_complete], and what
    follows it is not consumed. *)
Lemma execute_body_end (a rest : list byte) : forall c ctx mark p,
  0 < c -> Z.of_nat (length a) = c ->
  http_parser_execute {| state := s_body_identity; content_length := c |} ctx mark p
      (a ++ rest) =
    (p + Z.of_nat (length a), {| state := s_dead; content_length := 0 |},
     done (snd (request_parse_data ctx (mark ++ a)))).
Proof.
  induction a as [|ch a IH]; intros c ctx mark p Hpos Hlen; cbn [length] in Hlen.
  - lia.
  - cbn [app http_parser_execute state content_length length].
    destruct (Z.eqb_spec (c - 1) 0) as [E|E].
    + destruct a as [|ch' a]; [|cbn [length] in Hlen; lia].
      rewrite callback_body_cons.
      cbn [app request_parse_data request_parse_message_complete Z.eqb negb length].
      rewrite E, execute_dead.
      eq_arith.
    + rewrite IH by lia. rewrite <- app_assoc. cbn [app].
      eq_arith.
Qed.

(** Exactly the body bytes still expected: the last one is followed by
    [on_message_complete]. *)
Lemma execute_body_exact (a : list byte) c ctx mark p :
  0 < c -> Z.of_nat (length a) = c ->
  http_parser_execute {| state := s_body_identity; content_length := c |} ctx mark p a =
    (p + Z.of_nat (length a), {| state := s_dead; content_length := 0 |},
     done (snd (request_parse_data ctx (mark ++ a)))).
Proof.
  intros Hpos Hlen. rewrite <- (app_nil_r a) at 1. now apply execute_body_end.
Qed.

(** The chunk holds the end of the header section, the declared length is
    finite and the allocation succeeds. *)
Lemma execute_headers_complete (a : list byte) :
  forall h cl ctx p declared a2 buf,
  header_section h a = Some (declared, a2) ->
  to_size_t declared <> UINT64_MAX ->
  char_buffer_allocate (response ctx) (to_size_t declared) = (RC_OK, buf) ->
  http_parser_execute {| state := s_headers h; content_length := cl |} ctx [] p a =
    let ctx1 := {| response := buf; offset := 0; status := status ctx |} in
    let p' := p + Z.of_nat (length a) - Z.of_nat (length a2) in
    if to_size_t declared =? 0 then
      (p', {| state := s_dead; content_length := to_size_t declared |}, done ctx1)
    else
      http_parser_execute
        {| state := s_body_identity; content_length := to_size_t declared |}
        ctx1 [] p' a2.
Proof.
  induction a as [|ch a IH]; intros h cl ctx p declared a2 buf Hsec Hfin Halloc;
    cbn [header_section] in Hsec; [discriminate|].
  cbn [http_parser_execute state content_length length].
  unfold set_state; cbn [content_length].
  destruct (header_step h ch) as [h'|d|] eqn:Hstep; [| |discriminate].
  - rewrite (IH h' cl ctx (p + 1) declared a2 buf Hsec Hfin Halloc).
    cbn zeta. replace (p + 1 + Z.of_nat (length a) - Z.of_nat (length a2))
      with (p + Z.of_nat (S (length a)) - Z.of_nat (length a2)) by lia.
    reflexivity.
  - injection Hsec as -> ->.
    unfold request_parse_header_complete. cbn [content_length].
    destruct (Z.eqb_spec (to_size_t declared) UINT64_MAX) as [E|E]; [contradiction|].
    rewrite Halloc. cbn [retcode_eqb Z.eqb negb].
    cbn zeta. replace (p + Z.of_nat (S (length a2)) - Z.of_nat (length a2))
      with (p + 1) by lia.
    destruct (Z.eqb_spec (to_size_t declared) 0) as [E0|E0]; [|reflexivity].
    cbn [request_parse_message_complete Z.eqb negb]. now rewrite execute_dead.
Qed.

(** A chunk that starts inside the header section either holds its end or
    is consumed whole without a callback. *)
Lemma header_section_split (a : list byte) : forall h rest declared body,
  header_section h (a ++ rest) = Some (declared, body) ->
  (exists a2, header_section h a = Some (declared, a2) /\ body = a2 ++ rest) \/
  (exists h',
     (forall cl ctx p,
        http_parser_execute {| state := s_headers h; content_length := cl |} ctx [] p a =
          (p + Z.of_nat (length a), {| state := s_headers h'; content_length := cl |}, ctx)) /\
     header_section h' rest = Some (declared, body)).
Proof.
  induction a as [|ch a IH]; intros h rest declared body Hsec.
  - right. exists h. split; [|exact Hsec].
    intros cl ctx p. cbn. now rewrite Z.add_0_r.
  - cbn [app header_section] in Hsec |- *.
    destruct (header_step h ch) as [h'|d|] eqn:Hstep; [| |discriminate].
    + destruct (IH h' rest declared body Hsec) as [(a2 & H1 & H2)|(h'' & H1 & H2)].
      * left. exists a2. auto.
      * right. exists h''. split; [|exact H2].
        intros cl ctx p.
        cbn [http_parser_execute state content_length length].
        unfold set_state; cbn [content_length].
        rewrite Hstep, H1. eq_arith.
    + injection Hsec as -> <-. left. exists a. auto.
Qed.

Lemma header_scan_app (a : list byte) : forall h rest,
  header_scan h (a ++ rest) =
    match header_scan h a with
    | scan_incomplete h' => header_scan h' rest
    | scan_complete declared r => scan_complete declared (r ++ rest)
    | scan_rejected r => scan_rejected (r ++ rest)
    end.
Proof.
  induction a as [|ch a IH]; intros h rest; [reflexivity|].
  cbn [app header_scan]. destruct (header_step h ch); [apply IH|reflexivity..].
Qed.

(** A chunk inside the header section is consumed whole and calls no
    callback. *)
Lemma execute_scan_incomplete (a : list byte) : forall h h' cl ctx p,
  header_scan h a = scan_incomplete h' ->
  http_parser_execute {| state := s_headers h; content_length := cl |} ctx [] p a =
    (p + Z.of_nat (length a), {| state := s_headers h'; content_length := cl |}, ctx).
Proof.
  induction a as [|ch a IH]; intros h h' cl ctx p Hscan; cbn [header_scan] in Hscan.
  - injection Hscan as ->. cbn. now rewrite Z.add_0_r.
  - cbn [http_parser_execute state length]. unfold set_state; cbn [content_length].
    destruct (header_step h ch) as [h1|d|]; [|discriminate..].
    rewrite (IH h1 h' cl ctx (p + 1) Hscan). eq_arith.
Qed.

(** A chunk with a byte the header grammar rejects: the parser stops at
    that byte and calls no callback. *)
Lemma execute_scan_rejected (a : list byte) : forall h r cl ctx p,
  header_scan h a = scan_rejected r ->
  http_parser_execute {| state := s_headers h; content_length := cl |} ctx [] p a =
    (p + Z.of_nat (length a) - Z.of_nat (length r),
     {| state := s_dead; content_length := cl |}, ctx) /\
  (0 < length r <= length a)%nat.
Proof.
  induction a as [|ch a IH]; intros h r cl ctx p Hscan; cbn [header_scan] in Hscan;
    [discriminate|].
  cbn [http_parser_execute state length]. unfold set_state; cbn [content_length].
  destruct (header_step h ch) as [h1|d|]; [|discriminate|].
  - destruct (IH h1 r cl ctx (p + 1) Hscan) as [-> Hr]. split; [eq_arith|lia].
  - injection Hscan as <-. cbn [length]. split; [eq_arith|lia].
Qed.

(** A chunk with the end of the header section, when
    [on_headers_complete] refuses: the parser stops at the last byte of
    the header section with the context the callback left. *)
Lemma execute_headers_refused (a : list byte) : forall h cl ctx p declared a2 ctx1,
  header_section h a = Some (declared, a2) ->
  (forall st,
     request_parse_header_complete
       {| state := st; content_length := to_size_t declared |} ctx = (-1, ctx1)) ->
  http_parser_execute {| state := s_headers h; content_length := cl |} ctx [] p a =
    (p + Z.of_nat (length a) - Z.of_nat (length a2) - 1,
     {| state := s_dead; content_length := to_size_t declared |}, ctx1).
Proof.
  induction a as [|ch a IH]; intros h cl ctx p declared a2 ctx1 Hsec Hcb;
    cbn [header_section] in Hsec; [discriminate|].
  cbn [http_parser_execute state length]. unfold set_state; cbn [content_length].
  destruct (header_step h ch) as [h1|d|]; [| |discriminate].
  - rewrite (IH h1 cl ctx (p + 1) declared a2 ctx1 Hsec Hcb). eq_arith.
  - injection Hsec as -> ->. rewrite Hcb. cbn [Z.eqb negb]. eq_arith.
Qed.

Lemma header_section_app (a : list byte) : forall h declared a2 rest,
  header_section h a = Some (declared, a2) ->
  header_section h (a ++ rest) = Some (declared, a2 ++ rest).
Proof.
  induction a as [|ch a IH]; intros h declared a2 rest H; cbn [header_section] in H;
    [discriminate|].
  cbn [app header_section].
  destruct (header_step h ch); [now apply IH| |discriminate].
  now injection H as -> ->.
Qed.

Lemma header_scan_section (a : list byte) : forall h declared a2,
  header_scan h a = scan_complete declared a2 ->
  header_section h a = Some (declared, a2).
Proof.
  induction a as [|ch a IH]; intros h declared a2 H;
    cbn [header_scan header_section] in *; [discriminate|].
  destruct (header_step h ch); [now apply IH| |discriminate].
  now injection H as -> ->.
Qed.
End Reader.

(** ** The reader across the chunks of one response *)

Section Framing.
Context {G : HeaderGrammar} {B : CharBuffer}.

Lemma declared_bound declared :
  to_size_t declared <> UINT64_MAX -> 0 <= to_size_t declared < 2 ^ 64 - 1.
Proof.
  pose proof (to_size_t_range declared). unfold UINT64_MAX in *. lia.
Qed.

Lemma reading_start response0 buf declared body bs :
  header_section header_init bs = Some (declared, body) ->
  reading response0 buf declared body http_parser_init
    (response_context_init response0) bs.
Proof. intros H. left. exists header_init. auto. Qed.

(** A chunk that does not reach the end of the message: it is consumed
    whole, the status stays [IOTA_REQUEST_STATUS_OK], and the reader is
    ready for the rest. *)
Lemma execute_chunk_inside response0 buf declared body a rest parser ctx :
  to_size_t declared <> UINT64_MAX ->
  char_buffer_allocate response0 (to_size_t declared) = (RC_OK, buf) ->
  Z.of_nat (length body) <= to_size_t declared ->
  reading response0 buf declared body parser ctx (a ++ rest) ->
  rest <> [] \/ Z.of_nat (length body) < to_size_t declared ->
  exists parser' ctx',
    http_parser_execute parser ctx [] 0 a = (Z.of_nat (length a), parser', ctx') /\
    status ctx' = IOTA_REQUEST_STATUS_OK /\
    reading response0 buf declared body parser' ctx' rest.
Proof.
  intros Hfinite Halloc Hbody Hread Hmore.
  pose proof (declared_bound declared Hfinite) as HD.
  set (D := to_size_t declared) in *.
  destruct Hread as [(h & -> & -> & Hsec)|(written & Hw & -> & ->)].
  - destruct (header_section_split a h rest declared body Hsec)
      as [(a2 & Ha & Hb)|(h' & Hrun & Hrest)].
    + assert (Hshort : Z.of_nat (length a2) < D).
      { rewrite Hb, length_app in Hbody. destruct Hmore as [Hne|Hlt].
        - destruct rest; [congruence|]. cbn [length] in Hbody. lia.
        - rewrite Hb, length_app in Hlt. lia. }
      rewrite (execute_headers_complete a h _ (response_context_init response0)
                 0 declared a2 buf Ha Hfinite Halloc).
      cbn zeta. fold D.
      destruct (Z.eqb_spec D 0) as [E|E]; [lia|].
      rewrite execute_body_short by exact Hshort.
      cbn [app]. rewrite callback_body_eq by (cbn [offset]; lia).
      cbn [offset response status snd fst response_context_init].
      eexists _, _. split; [eq_arith|]. split; [reflexivity|].
      right. exists a2. rewrite Z.add_0_l. auto.
    + rewrite Hrun. eexists _, _. split; [eq_arith|]. split; [reflexivity|].
      left. exists h'. auto.
  - assert (Hshort : Z.of_nat (length a) < D - Z.of_nat (length written)).
    { rewrite Hw, !length_app in Hbody. destruct Hmore as [Hne|Hlt].
      - destruct rest; [congruence|]. cbn [length] in Hbody. lia.
      - rewrite Hw, !length_app in Hlt. lia. }
    rewrite execute_body_short by exact Hshort.
    cbn [app]. rewrite callback_body_eq by (cbn [offset]; lia).
    cbn [offset response status snd fst buf_length buf_data].
    eexists _, _. split; [eq_arith|]. split; [reflexivity|].
    right. exists (written ++ a). rewrite <- app_assoc. split; [exact Hw|].
    rewrite length_app, memcpy_app, Z.add_0_l. split; eq_arith.
Qed.

(** The chunk that brings the last expected byte: it is consumed whole,
    the status is [IOTA_REQUEST_STATUS_DONE] and the buffer holds the
    body. *)
Lemma execute_chunk_last response0 buf declared body a parser ctx :
  to_size_t declared <> UINT64_MAX ->
  char_buffer_allocate response0 (to_size_t declared) = (RC_OK, buf) ->
  Z.of_nat (length body) = to_size_t declared ->
  reading response0 buf declared body parser ctx a ->
  a <> [] ->
  exists parser' ctx',
    http_parser_execute parser ctx [] 0 a = (Z.of_nat (length a), parser', ctx') /\
    status ctx' = IOTA_REQUEST_STATUS_DONE /\
    response ctx' =
      {| buf_length := buf_length buf; buf_data := memcpy (buf_data buf) 0 body |}.
Proof.
  intros Hfinite Halloc Hlen Hread Hne.
  pose proof (declared_bound declared Hfinite) as HD.
  set (D := to_size_t declared) in *.
  destruct Hread as [(h & -> & -> & Hsec)|(written & Hw & -> & ->)].
  - rewrite (execute_headers_complete a h _ (response_context_init response0)
               0 declared body buf Hsec Hfinite Halloc).
    cbn zeta. fold D.
    destruct (Z.eqb_spec D 0) as [E|E].
    + destruct body; [|cbn [length] in Hlen; lia].
      cbn. eexists _, _. split; [eq_arith|]. split; [reflexivity|].
      now destruct buf.
    + rewrite execute_body_exact by lia.
      cbn [app]. rewrite request_parse_data_small by (cbn [offset]; lia).
      eexists _, _. split; [eq_arith|]. split; reflexivity.
  - rewrite Hw, length_app in Hlen.
    destruct a as [|ch a]; [congruence|].
    rewrite execute_body_exact by (cbn [length] in *; lia).
    cbn [app]. rewrite request_parse_data_small by (cbn [offset length] in *; lia).
    eexists _, _. split; [eq_arith|]. split; [reflexivity|].
    cbn. now rewrite Hw, memcpy_app, Z.add_0_l.
Qed.
End Framing.

(** ** C7, C8, C10: the receive loop *)

Section ReadLoop.
Context {G : HeaderGrammar} {B : CharBuffer}.

Lemma read_loop_end e recvs parser ctx :
  num_received_of e <= 0 ->
  http_response_read_loop (e :: recvs) parser ctx = Some (RC_CCLIENT_HTTP, response ctx).
Proof.
  intros He. cbn [http_response_read_loop].
  destruct (Z.gtb_spec (num_received_of e) 0); [lia|].
  destruct (Z.leb_spec (num_received_of e) 0); [reflexivity|lia].
Qed.

Lemma read_loop_chunk a recvs parser ctx parsed parser1 ctx1 :
  a <> [] ->
  http_parser_execute parser ctx [] 0 a = (parsed, parser1, ctx1) ->
  http_response_read_loop (recv_data a :: recvs) parser ctx =
    if (parsed <? Z.of_nat (length a))
       || status_eqb (status ctx1) IOTA_REQUEST_STATUS_ERROR
    then Some (RC_UTILS_SOCKET_RECV, response ctx1)
    else if status_eqb (status ctx1) IOTA_REQUEST_STATUS_DONE
    then Some (RC_OK, response ctx1)
    else http_response_read_loop recvs parser1 ctx1.
Proof.
  intros Hne Hexec. cbn [http_response_read_loop num_received_of received_bytes].
  destruct (Z.gtb_spec (Z.of_nat (length a)) 0) as [Hpos|Hpos].
  - now rewrite Hexec.
  - destruct a; [congruence|]. cbn [length] in Hpos. lia.
Qed.

(** C10: when the parser consumed fewer bytes than the chunk held,
    [http_response_read] returns [RC_UTILS_SOCKET_RECV] whatever the
    status is, so also when [on_message_complete] ran in that chunk and
    set it to [IOTA_REQUEST_STATUS_DONE]: the test on [parsed] comes
    first.  The loop is taken at any of its iterations, with the parser
    and the context the earlier chunks left. *)
Theorem short_consume_is_an_error recvs bs parser ctx parsed parser1 ctx1 :
  http_parser_execute parser ctx [] 0 bs = (parsed, parser1, ctx1) ->
  parsed < Z.of_nat (length bs) ->
  http_response_read_loop (recv_data bs :: recvs) parser ctx =
    Some (RC_UTILS_SOCKET_RECV, response ctx1).
Proof.
  intros Hexec Hshort.
  assert (Hne : bs <> []).
  { intros ->. cbn in Hexec. injection Hexec as <- _ _. cbn in Hshort. lia. }
  rewrite (read_loop_chunk bs recvs parser ctx parsed parser1 ctx1 Hne Hexec).
  destruct (Z.ltb_spec parsed (Z.of_nat (length bs))); [reflexivity|lia].
Qed.

(** The reader in the middle of a response that stops short of its
    declared length, when the stream ends. *)
Lemma read_loop_starved response0 buf declared body e recvs :
  to_size_t declared <> UINT64_MAX ->
  char_buffer_allocate response0 (to_size_t declared) = (RC_OK, buf) ->
  Z.of_nat (length body) < to_size_t declared ->
  num_received_of e <= 0 ->
  forall chunks parser ctx,
  reading response0 buf declared body parser ctx (concat chunks) ->
  fst <$> http_response_read_loop ((recv_data <$> chunks) ++ e :: recvs) parser ctx =
    Some RC_CCLIENT_HTTP.
Proof.
  intros Hfinite Halloc Hshort He.
  induction chunks as [|a chunks IH]; intros parser ctx Hread.
  - cbn [fmap list_fmap app]. now rewrite read_loop_end.
  - cbn [fmap list_fmap app]. fold (fmap (M:=list) recv_data chunks).
    destruct a as [|ch a].
    + now rewrite read_loop_end.
    + cbn [concat] in Hread.
      destruct (execute_chunk_inside response0 buf declared body (ch :: a)
                  (concat chunks) parser ctx Hfinite Halloc ltac:(lia) Hread
                  ltac:(right; lia))
        as (parser' & ctx' & Hexec & Hst & Hread').
      rewrite (read_loop_chunk (ch :: a) _ parser ctx _ parser' ctx' ltac:(discriminate) Hexec).
      rewrite Z.ltb_irrefl, Hst. cbn [orb status_eqb].
      now apply IH.
Qed.

(** C7: a response whose header section declares a finite length and
    whose body bytes, however they are cut into chunks, are fewer than
    declared when the transport reports the end of the stream (or an
    error): [http_response_read] returns [RC_CCLIENT_HTTP], its code for
    a receive that ended before the message was complete, and so never
    [RC_OK]. *)
Theorem premature_close_is_reported chunks declared body response buf e recvs :
  header_section header_init (concat chunks) = Some (declared, body) ->
  to_size_t declared <> UINT64_MAX ->
  char_buffer_allocate response (to_size_t declared) = (RC_OK, buf) ->
  Z.of_nat (length body) < to_size_t declared ->
  num_received_of e <= 0 ->
  fst <$> http_response_read ((recv_data <$> chunks) ++ e :: recvs) response =
    Some RC_CCLIENT_HTTP.
Proof.
  intros Hsec Hfinite Halloc Hshort He. unfold http_response_read.
  apply (read_loop_starved response buf declared body e recvs Hfinite Halloc Hshort He).
  now apply reading_start.
Qed.

Lemma read_loop_complete response0 buf declared body recvs :
  to_size_t declared <> UINT64_MAX ->
  char_buffer_allocate response0 (to_size_t declared) = (RC_OK, buf) ->
  Z.of_nat (length body) = to_size_t declared ->
  forall chunks parser ctx,
  chunks <> [] ->
  Forall (fun c => c <> []) chunks ->
  reading response0 buf declared body parser ctx (concat chunks) ->
  http_response_read_loop ((recv_data <$> chunks) ++ recvs) parser ctx =
    Some (RC_OK, {| buf_length := buf_length buf;
                    buf_data := memcpy (buf_data buf) 0 body |}).
Proof.
  intros Hfinite Halloc Hlen.
  induction chunks as [|a chunks IH]; intros parser ctx Hne Hall Hread; [congruence|].
  cbn [fmap list_fmap app]. fold (fmap (M:=list) recv_data chunks).
  apply Forall_cons in Hall as [Ha Hall].
  destruct chunks as [|a' chunks].
  - cbn [concat] in Hread. rewrite app_nil_r in Hread.
    destruct (execute_chunk_last response0 buf declared body a parser ctx
                Hfinite Halloc Hlen Hread Ha)
      as (parser' & ctx' & Hexec & Hst & Hresp).
    rewrite (read_loop_chunk a _ parser ctx _ parser' ctx' Ha Hexec).
    rewrite Z.ltb_irrefl, Hst, Hresp. reflexivity.
  - cbn [concat] in Hread.
    assert (Hrest : concat (a' :: chunks) <> []).
    { apply Forall_cons in Hall as [Ha' _]. cbn [concat].
      destruct a'; [congruence|discriminate]. }
    destruct (execute_chunk_inside response0 buf declared body a
                (concat (a' :: chunks)) parser ctx Hfinite Halloc ltac:(lia) Hread
                ltac:(left; exact Hrest))
      as (parser' & ctx' & Hexec & Hst & Hread').
    rewrite (read_loop_chunk a _ parser ctx _ parser' ctx' Ha Hexec).
    rewrite Z.ltb_irrefl, Hst. cbn [orb status_eqb].
    apply IH; [discriminate|exact Hall|exact Hread'].
Qed.

(** C8: the bytes [bs] of a well-formed response with body [body], cut
    into non-empty chunks at any byte boundaries: [http_response_read]
    returns [RC_OK] and leaves in the caller's buffer the allocation for
    the declared length with [body] stored from offset 0.  Cell [k] of the
    buffer holds the [k]-th byte of the body, the cells after the body are
    as the allocation left them, and reading as many bytes as the body has
    from the start of the buffer gives the body back.  The returned buffer
    does not mention the chunks: it is the same for every way of
    cutting. *)
Theorem chunking_does_not_matter bs body chunks response buf recvs :
  well_formed_response bs body ->
  char_buffer_allocate response (Z.of_nat (length body)) = (RC_OK, buf) ->
  concat chunks = bs ->
  Forall (fun c => c <> []) chunks ->
  exists b,
    http_response_read ((recv_data <$> chunks) ++ recvs) response = Some (RC_OK, b) /\
    buf_length b = buf_length buf /\
    (forall k, (k < length body)%nat -> buf_data b !! Z.of_nat k = body !! k) /\
    (forall i, ~ (0 <= i < Z.of_nat (length body)) ->
       buf_data b !! i = buf_data buf !! i) /\
    read (buf_data b) 0 (Z.of_nat (length body)) = body /\
    b = {| buf_length := buf_length buf; buf_data := memcpy (buf_data buf) 0 body |}.
Proof.
  intros (declared & Hsec & Hfinite & Hlen) Halloc Hcat Hall.
  rewrite Hlen in Halloc. subst bs.
  exists {| buf_length := buf_length buf; buf_data := memcpy (buf_data buf) 0 body |}.
  destruct (stored_from_start_memcpy buf body) as (Hl & Hin & Hout).
  split; [|split; [exact Hl|split; [exact Hin|split; [exact Hout|split]]]].
  - unfold http_response_read.
    apply (read_loop_complete response buf declared body recvs Hfinite Halloc Hlen);
      [|exact Hall|now apply reading_start].
    intros ->. discriminate Hsec.
  - cbn [buf_data]. apply read_memcpy.
  - reflexivity.
Qed.

End ReadLoop.

(** ** C1: where a read stores *)

Section StoreBound.
Context {G : HeaderGrammar} {B : CharBuffer}.

Lemma within_filled response0 declared buf written r :
  to_size_t declared <> UINT64_MAX ->
  char_buffer_allocate response0 (to_size_t declared) = (RC_OK, buf) ->
  Z.of_nat (length written) <= to_size_t declared ->
  (r = RC_OK -> Z.of_nat (length written) = to_size_t declared) ->
  within_declared_length response0 r
    {| buf_length := buf_length buf; buf_data := memcpy (buf_data buf) 0 written |}.
Proof.
  intros Hfinite Halloc Hle Hok. right. exists declared, RC_OK, buf.
  split; [exact Hfinite|]. split; [exact Halloc|]. right. split; [reflexivity|].
  exists written. split; [exact Hle|]. split; [apply stored_from_start_memcpy|exact Hok].
Qed.

Lemma between_chunks_within response0 parser ctx r :
  r <> RC_OK ->
  between_chunks response0 parser ctx ->
  within_declared_length response0 r (response ctx).
Proof.
  intros Hr [(h & _ & ->)|(declared & buf & written & Hfinite & Halloc & Hlt & _ & ->)].
  - left. split; [reflexivity|exact Hr].
  - cbn [response]. apply (within_filled response0 declared); [assumption..|lia|].
    intros ->. contradiction.
Qed.

Lemma header_section_shorter (a : list byte) : forall h declared a2,
  header_section h a = Some (declared, a2) -> (length a2 < length a)%nat.
Proof.
  induction a as [|ch a IH]; intros h declared a2 H; cbn [header_section] in H;
    [discriminate|].
  cbn [length]. destruct (header_step h ch); [|injection H as _ <-; lia|discriminate].
  apply IH in H. lia.
Qed.

(** A chunk, or the end of one, that comes inside the body: the parser
    hands over no more bytes than are still expected.  It consumes the
    chunk whole and stays in the body, or it stops short of the end of the
    chunk after the last expected byte, or the chunk ends with that
    byte. *)
Lemma execute_body_within response0 declared buf written (a : list byte) p :
  to_size_t declared <> UINT64_MAX ->
  char_buffer_allocate response0 (to_size_t declared) = (RC_OK, buf) ->
  Z.of_nat (length written) < to_size_t declared ->
  exists n parser1 ctx1,
    http_parser_execute
      {| state := s_body_identity;
         content_length := to_size_t declared - Z.of_nat (length written) |}
      {| response := {| buf_length := buf_length buf;
                        buf_data := memcpy (buf_data buf) 0 written |};
         offset := Z.of_nat (length written);
         status := IOTA_REQUEST_STATUS_OK |} [] p a = (p + n, parser1, ctx1) /\
    ((n = Z.of_nat (length a) /\ status ctx1 = IOTA_REQUEST_STATUS_OK /\
      between_chunks response0 parser1 ctx1) \/
     (n < Z.of_nat (length a) /\
      within_declared_length response0 RC_UTILS_SOCKET_RECV (response ctx1)) \/
     (n = Z.of_nat (length a) /\ status ctx1 = IOTA_REQUEST_STATUS_DONE /\
      within_declared_length response0 RC_OK (response ctx1))).
Proof.
  intros Hfinite Halloc Hlt.
  pose proof (declared_bound declared Hfinite) as HD.
  set (c := to_size_t declared - Z.of_nat (length written)).
  destruct (Z.lt_ge_cases (Z.of_nat (length a)) c) as [Hshort|Hlong].
  - rewrite execute_body_short by exact Hshort.
    cbn [app]. rewrite callback_body_eq by (cbn [offset]; lia).
    cbn [offset response status snd buf_length buf_data].
    exists (Z.of_nat (length a)). eexists _, _. split; [reflexivity|].
    left. split; [reflexivity|]. split; [reflexivity|].
    right. exists declared, buf, (written ++ a).
    rewrite length_app, memcpy_app, Z.add_0_l.
    repeat split; try assumption; try lia; unfold c; eq_arith.
  - pose proof (take_drop (Z.to_nat c) a) as Ha.
    assert (Hc : Z.of_nat (length (take (Z.to_nat c) a)) = c)
      by (rewrite length_take; unfold c in *; lia).
    set (a1 := take (Z.to_nat c) a) in *. set (a2 := drop (Z.to_nat c) a) in *.
    clearbody a1 a2. subst a.
    rewrite execute_body_end by (unfold c in *; lia).
    cbn [app]. rewrite request_parse_data_small by (cbn [offset]; unfold c in *; lia).
    unfold done.
    cbn [request_parse_message_complete offset response status snd buf_length buf_data].
    replace (memcpy (memcpy (buf_data buf) 0 written) (Z.of_nat (length written)) a1)
      with (memcpy (buf_data buf) 0 (written ++ a1))
      by (now rewrite memcpy_app, Z.add_0_l).
    exists (Z.of_nat (length a1)). eexists _, _. split; [reflexivity|].
    assert (Hfull : Z.of_nat (length (written ++ a1)) = to_size_t declared)
      by (rewrite length_app; unfold c in *; lia).
    destruct a2 as [|x a2].
    + right. right. rewrite app_nil_r. split; [reflexivity|]. split; [reflexivity|].
      cbn [response]. apply (within_filled response0 declared); [assumption..|lia|auto].
    + right. left. rewrite length_app. cbn [length]. split; [lia|].
      cbn [response]. apply (within_filled response0 declared); [assumption..|lia|auto].
Qed.

(** A chunk that comes between two receive calls: the parser consumes it
    whole and the read goes on, or it stops short and the read returns
    [RC_UTILS_SOCKET_RECV], or it consumes it whole with the status
    [IOTA_REQUEST_STATUS_DONE] and the read returns [RC_OK]. *)
Lemma execute_chunk_within response0 parser ctx (a : list byte) :
  between_chunks response0 parser ctx ->
  exists n parser1 ctx1,
    http_parser_execute parser ctx [] 0 a = (n, parser1, ctx1) /\
    ((n = Z.of_nat (length a) /\ status ctx1 = IOTA_REQUEST_STATUS_OK /\
      between_chunks response0 parser1 ctx1) \/
     (n < Z.of_nat (length a) /\
      within_declared_length response0 RC_UTILS_SOCKET_RECV (response ctx1)) \/
     (n = Z.of_nat (length a) /\ status ctx1 = IOTA_REQUEST_STATUS_DONE /\
      within_declared_length response0 RC_OK (response ctx1))).
Proof.
  intros [(h & -> & ->)|(declared & buf & written & Hfinite & Halloc & Hlt & -> & ->)].
  - destruct (header_scan h a) as [h'|declared a2|r] eqn:Hscan.
    + rewrite (execute_scan_incomplete a h h' _ _ 0 Hscan).
      eexists _, _, _. split; [reflexivity|]. left.
      split; [lia|]. split; [reflexivity|]. left. exists h'. auto.
    + apply header_scan_section in Hscan.
      pose proof (header_section_shorter a h declared a2 Hscan) as Hlen.
      destruct (Z.eq_dec (to_size_t declared) UINT64_MAX) as [Hmax|Hfinite].
      { rewrite (execute_headers_refused a h _ (response_context_init response0) 0
                   declared a2
                   {| response := response0; offset := 0;
                      status := IOTA_REQUEST_STATUS_ERROR |} Hscan).
        - eexists _, _, _. split; [reflexivity|]. right. left. split; [lia|].
          left. split; [reflexivity|discriminate].
        - intros st. unfold request_parse_header_complete. cbn [content_length].
          now rewrite Hmax, Z.eqb_refl. }
      pose proof (declared_bound declared Hfinite) as HD.
      destruct (char_buffer_allocate response0 (to_size_t declared)) as [rc buf] eqn:Halloc.
      destruct (retcode_eqb rc RC_OK) eqn:Hrc.
      * apply retcode_eqb_eq in Hrc. subst rc. destruct buf as [len mem].
        rewrite (execute_headers_complete a h _ (response_context_init response0)
                   0 declared a2 _ Hscan Hfinite Halloc).
        cbn zeta. destruct (Z.eqb_spec (to_size_t declared) 0) as [E|E].
        -- unfold done. cbn [request_parse_message_complete snd response_context_init status].
           eexists _, _, _. split; [reflexivity|].
           assert (Hin : within_declared_length response0 RC_OK
                           {| buf_length := len; buf_data := mem |}).
           { apply (within_filled response0 declared {| buf_length := len; buf_data := mem |} []);
               [assumption..|cbn [length]; lia|cbn [length]; lia]. }
           assert (Hin' : within_declared_length response0 RC_UTILS_SOCKET_RECV
                           {| buf_length := len; buf_data := mem |}).
           { apply (within_filled response0 declared {| buf_length := len; buf_data := mem |} []);
               [assumption..|cbn [length]; lia|discriminate]. }
           destruct a2 as [|x a2].
           ++ right. right. cbn [length]. split; [lia|]. split; [reflexivity|exact Hin].
           ++ right. left. cbn [length] in *. split; [lia|exact Hin'].
        -- destruct (execute_body_within response0 declared
                       {| buf_length := len; buf_data := mem |} [] a2
                       (0 + Z.of_nat (length a) - Z.of_nat (length a2))
                       Hfinite Halloc ltac:(cbn [length]; lia))
             as (n & parser1 & ctx1 & Hexec & Hcases).
           cbn [length memcpy buf_length buf_data response_context_init status] in Hexec |- *.
           change (Z.of_nat 0) with 0 in Hexec.
           rewrite Z.sub_0_r in Hexec. rewrite Hexec.
           eexists _, _, _. split; [reflexivity|].
           destruct Hcases as [(Hn & Hst & Hinv)|[(Hn & Hin)|(Hn & Hst & Hin)]].
           ++ left. split; [lia|]. split; assumption.
           ++ right. left. split; [lia|exact Hin].
           ++ right. right. split; [lia|]. split; assumption.
      * assert (Hne : rc <> RC_OK) by (intros ->; discriminate Hrc).
        rewrite (execute_headers_refused a h _ (response_context_init response0) 0
                   declared a2
                   {| response := buf; offset := 0;
                      status := IOTA_REQUEST_STATUS_ERROR |} Hscan).
        -- eexists _, _, _. split; [reflexivity|]. right. left. split; [lia|].
           right. exists declared, rc, buf. split; [exact Hfinite|].
           split; [exact Halloc|]. left. auto.
        -- intros st. unfold request_parse_header_complete.
           cbn [content_length response_context_init response offset].
           destruct (Z.eqb_spec (to_size_t declared) UINT64_MAX); [contradiction|].
           rewrite Halloc. now rewrite Hrc.
    + destruct (execute_scan_rejected a h r UINT64_MAX (response_context_init response0)
                  0 Hscan) as [Hexec Hr].
      rewrite Hexec. eexists _, _, _. split; [reflexivity|]. right. left.
      split; [lia|]. left. split; [reflexivity|discriminate].
  - destruct (execute_body_within response0 declared buf written a 0
                Hfinite Halloc Hlt) as (n & parser1 & ctx1 & Hexec & Hcases).
    rewrite Z.add_0_l in Hexec. eauto.
Qed.

Lemma read_loop_within response0 : forall recvs parser ctx r b,
  between_chunks response0 parser ctx ->
  http_response_read_loop recvs parser ctx = Some (r, b) ->
  within_declared_length response0 r b.
Proof.
  induction recvs as [|e recvs IH]; intros parser ctx r b Hinv H; [discriminate|].
  destruct (Z.le_gt_cases (num_received_of e) 0) as [He|He].
  - rewrite read_loop_end in H by exact He. injection H as <- <-.
    now apply (between_chunks_within response0 parser).
  - destruct e as [a| |e]; cbn [num_received_of] in He; [|lia..].
    assert (Hne : a <> []) by (intros ->; cbn [length] in He; lia).
    destruct (execute_chunk_within response0 parser ctx a Hinv)
      as (n & parser1 & ctx1 & Hexec & Hcases).
    rewrite (read_loop_chunk a recvs parser ctx n parser1 ctx1 Hne Hexec) in H.
    destruct Hcases as [(Hn & Hst & Hinv1)|[(Hn & Hin)|(Hn & Hst & Hin)]].
    + rewrite Hn, Z.ltb_irrefl, Hst in H. cbn [orb status_eqb] in H.
      exact (IH parser1 ctx1 r b Hinv1 H).
    + destruct (Z.ltb_spec n (Z.of_nat (length a))); [|lia].
      cbn [orb] in H. now injection H as <- <-.
    + rewrite Hn, Z.ltb_irrefl, Hst in H. cbn [orb status_eqb] in H.
      now injection H as <- <-.
Qed.

(** The chunk that brings the last expected byte and, after it, bytes
    that were not declared: the parser consumes it up to the last expected
    byte, and the buffer holds the body. *)
Lemma execute_chunk_excess response0 buf declared body a x parser ctx :
  to_size_t declared <> UINT64_MAX ->
  char_buffer_allocate response0 (to_size_t declared) = (RC_OK, buf) ->
  Z.of_nat (length body) = to_size_t declared ->
  reading response0 buf declared body parser ctx a ->
  a <> [] ->
  exists parser' ctx',
    http_parser_execute parser ctx [] 0 (a ++ x) = (Z.of_nat (length a), parser', ctx') /\
    response ctx' =
      {| buf_length := buf_length buf; buf_data := memcpy (buf_data buf) 0 body |}.
Proof.
  intros Hfinite Halloc Hlen Hread Hne.
  pose proof (declared_bound declared Hfinite) as HD.
  destruct Hread as [(h & -> & -> & Hsec)|(written & Hw & -> & ->)].
  - pose proof (header_section_shorter a h declared body Hsec) as Hshorter.
    rewrite (execute_headers_complete (a ++ x) h _ (response_context_init response0)
               0 declared (body ++ x) buf
               (header_section_app a h declared body x Hsec) Hfinite Halloc).
    cbn zeta. rewrite !length_app.
    destruct (Z.eqb_spec (to_size_t declared) 0) as [E|E].
    + destruct body; [|cbn [length] in Hlen; lia].
      eexists _, _. split; [cbn [length]; eq_arith|].
      cbn. now destruct buf.
    + rewrite execute_body_end by lia.
      cbn [app]. rewrite request_parse_data_small by (cbn [offset]; lia).
      eexists _, _. split; [eq_arith|]. reflexivity.
  - rewrite Hw, length_app in Hlen.
    destruct a as [|ch a]; [congruence|].
    rewrite execute_body_end by (cbn [length] in *; lia).
    cbn [app]. rewrite request_parse_data_small by (cbn [offset length] in *; lia).
    eexists _, _. split; [eq_arith|].
    cbn. now rewrite Hw, memcpy_app, Z.add_0_l.
Qed.

Lemma read_loop_excess response0 buf declared body a x recvs :
  to_size_t declared <> UINT64_MAX ->
  char_buffer_allocate response0 (to_size_t declared) = (RC_OK, buf) ->
  Z.of_nat (length body) = to_size_t declared ->
  a <> [] -> x <> [] ->
  forall pre parser ctx,
  Forall (fun c => c <> []) pre ->
  reading response0 buf declared body parser ctx (concat pre ++ a) ->
  http_response_read_loop ((recv_data <$> pre) ++ recv_data (a ++ x) :: recvs) parser ctx =
    Some (RC_UTILS_SOCKET_RECV,
          {| buf_length := buf_length buf; buf_data := memcpy (buf_data buf) 0 body |}).
Proof.
  intros Hfinite Halloc Hlen Ha Hx.
  induction pre as [|c pre IH]; intros parser ctx Hall Hread.
  - cbn [concat app fmap list_fmap] in *.
    destruct (execute_chunk_excess response0 buf declared body a x parser ctx
                Hfinite Halloc Hlen Hread Ha) as (parser' & ctx' & Hexec & Hresp).
    assert (Hne : a ++ x <> []) by (destruct a; [congruence|discriminate]).
    rewrite (read_loop_chunk (a ++ x) recvs parser ctx _ parser' ctx' Hne Hexec).
    rewrite length_app.
    destruct (Z.ltb_spec (Z.of_nat (length a)) (Z.of_nat (length a + length x))) as [_|Hge].
    + cbn [orb]. now rewrite Hresp.
    + destruct x; [congruence|]. cbn [length] in Hge. lia.
  - apply Forall_cons in Hall as [Hc Hall].
    cbn [fmap list_fmap app]. fold (fmap (M:=list) recv_data pre).
    cbn [concat] in Hread. rewrite <- app_assoc in Hread.
    destruct (execute_chunk_inside response0 buf declared body c
                (concat pre ++ a) parser ctx Hfinite Halloc ltac:(lia) Hread)
      as (parser1 & ctx1 & Hexec & Hst & Hread1).
    { left. destruct (concat pre); [exact Ha|discriminate]. }
    rewrite (read_loop_chunk c _ parser ctx _ parser1 ctx1 Hc Hexec).
    rewrite Z.ltb_irrefl, Hst. cbn [orb status_eqb].
    now apply IH.
Qed.

(** C1, as the code has it.  [request_parse_data] makes no check and
    there is no overflow outcome; the bound holds all the same, through
    the parser, which hands over no more body bytes than the header
    section declared.

    First, whatever the transport delivers, in whatever chunks: when
    [http_response_read] returns [r] and leaves [b] in the caller's buffer
    [response], one of three things holds.  Nothing was allocated: [b] is
    [response] untouched and [r] is not [RC_OK].  Or the header section
    declared a finite length for which the allocation failed: [b] is what
    the allocation left and [r] is [RC_UTILS_SOCKET_RECV].  Or the
    allocation for the declared length gave [buf], and [b] is [buf] with
    some bytes [written] stored from its first cell on, no more of them
    than declared: every cell at or past the declared length is as the
    allocation left it.  [RC_OK] is returned only with exactly as many
    bytes stored as were declared.

    Second, bytes beyond the declared length are cut off, not refused.
    When the chunk [a ++ x] brings the end [a] of a well-formed response
    and then bytes [x] that were not declared, the read stores the whole
    body, [a]'s part of it included, stores nothing of [x], and returns
    [RC_UTILS_SOCKET_RECV], the code it returns for every parse
    failure. *)
Theorem stores_stay_within_declared_length :
  (forall recvs response r b,
     http_response_read recvs response = Some (r, b) ->
     (b = response /\ r <> RC_OK) \/
     (exists declared rc buf,
        to_size_t declared <> UINT64_MAX /\
        char_buffer_allocate response (to_size_t declared) = (rc, buf) /\
        ((rc <> RC_OK /\ b = buf /\ r = RC_UTILS_SOCKET_RECV) \/
         (rc = RC_OK /\
          exists written,
            Z.of_nat (length written) <= to_size_t declared /\
            stored_from_start buf b written /\
            (r = RC_OK -> Z.of_nat (length written) = to_size_t declared))))) /\
  (forall bs body pre a x response buf recvs,
     well_formed_response bs body ->
     char_buffer_allocate response (Z.of_nat (length body)) = (RC_OK, buf) ->
     concat pre ++ a = bs ->
     Forall (fun c => c <> []) pre ->
     a <> [] -> x <> [] ->
     exists b,
       http_response_read ((recv_data <$> pre) ++ recv_data (a ++ x) :: recvs) response =
         Some (RC_UTILS_SOCKET_RECV, b) /\
       stored_from_start buf b body).
Proof.
  split.
  - intros recvs response r b H.
    apply (read_loop_within response recvs http_parser_init
             (response_context_init response) r b); [|exact H].
    left. exists header_init. auto.
  - intros bs body pre a x response buf recvs (declared & Hsec & Hfinite & Hlen)
      Halloc Hcat Hall Ha Hx.
    rewrite Hlen in Halloc. subst bs.
    exists {| buf_length := buf_length buf; buf_data := memcpy (buf_data buf) 0 body |}.
    split; [|apply stored_from_start_memcpy].
    unfold http_response_read.
    apply (read_loop_excess response buf declared body a x recvs
             Hfinite Halloc Hlen Ha Hx pre); [exact Hall|].
    now apply reading_start.
Qed.
End StoreBound.

(** ** C4: the retry loop *)

Section Retry.
Context {G : HeaderGrammar} {B : CharBuffer} {C : SocketConfig}.

Lemma retry_loop_stop conns service obj response ret retry n :
  ret <> RC_UTILS_SOCKET_RECV ->
  retry_loop conns service obj response ret retry n = Some (ret, response, n).
Proof.
  intros H. destruct conns; cbn [retry_loop]; now rewrite retcode_eqb_neq.
Qed.

Lemma retry_loop_break conns service obj response retry n :
  to_size_t CCLIENT_SOCKET_RETRY < retry ->
  retry_loop conns service obj response RC_UTILS_SOCKET_RECV retry n =
    Some (RC_UTILS_SOCKET_RECV, response, n).
Proof.
  intros H. destruct conns; cbn [retry_loop retcode_eqb];
    destruct (Z.gtb_spec retry (to_size_t CCLIENT_SOCKET_RETRY)); try lia; reflexivity.
Qed.

Lemma retry_loop_again conn conns service obj response retry n ret' response' wire :
  retry <= to_size_t CCLIENT_SOCKET_RETRY ->
  cclient_socket_send conn service obj response = Some (ret', response', wire) ->
  retry_loop (conn :: conns) service obj response RC_UTILS_SOCKET_RECV retry n =
    retry_loop conns service obj response' ret' (to_size_t (retry + 1)) (S n).
Proof.
  intros H Hsend. cbn [retry_loop retcode_eqb].
  destruct (Z.gtb_spec retry (to_size_t CCLIENT_SOCKET_RETRY)); [lia|].
  now rewrite Hsend.
Qed.

Lemma query_unfold conn conns service obj response ret response1 wire :
  cclient_socket_send conn service obj response = Some (ret, response1, wire) ->
  iota_service_query (conn :: conns) (Some service) (Some obj) (Some response) =
    (fun '(r, b, n) => (r, Some b, n)) <$>
      retry_loop conns service obj response1 ret 0 1%nat.
Proof.
  intros Hsend. cbn [iota_service_query]. rewrite Hsend. cbn.
  destruct (retry_loop conns service obj response1 ret 0 1) as [[[r b] n]|]; reflexivity.
Qed.

(** A code other than [RC_UTILS_SOCKET_RECV] ends the query after the
    attempt that gave it. *)
Lemma query_returns_at_once conn conns service obj response ret response1 wire :
  cclient_socket_send conn service obj response = Some (ret, response1, wire) ->
  ret <> RC_UTILS_SOCKET_RECV ->
  iota_service_query (conn :: conns) (Some service) (Some obj) (Some response) =
    Some (ret, Some response1, 1%nat).
Proof.
  intros Hsend Hret. rewrite (query_unfold _ _ _ _ _ _ _ _ Hsend).
  now rewrite retry_loop_stop.
Qed.

(** After a first [RC_UTILS_SOCKET_RECV] a second attempt is made,
    whatever the ceiling is: the counter is [0] and nothing is below
    it.  The attempt runs on the buffer the first one left. *)
Lemma query_retries_once conn conn2 conns service obj response response1 wire
    ret2 response2 wire2 :
  cclient_socket_send conn service obj response =
    Some (RC_UTILS_SOCKET_RECV, response1, wire) ->
  cclient_socket_send conn2 service obj response1 = Some (ret2, response2, wire2) ->
  iota_service_query (conn :: conn2 :: conns) (Some service) (Some obj) (Some response) =
    (fun '(r, b, n) => (r, Some b, n)) <$>
      retry_loop conns service obj response2 ret2 1 2%nat.
Proof.
  intros Hsend Hsend2. rewrite (query_unfold _ _ _ _ _ _ _ _ Hsend).
  assert (H0 : 0 <= to_size_t CCLIENT_SOCKET_RETRY)
    by apply (to_size_t_range CCLIENT_SOCKET_RETRY).
  rewrite (retry_loop_again conn2 conns service obj response1 0 1%nat _ _ _ H0 Hsend2).
  reflexivity.
Qed.

(** [k] attempts in a row that end in [RC_UTILS_SOCKET_RECV], all within
    the ceiling. *)
Lemma retry_loop_failures service obj rest :
  forall failing response retry n,
  to_size_t CCLIENT_SOCKET_RETRY < 2 ^ 64 - 1 ->
  Forall (attempt_gives service obj RC_UTILS_SOCKET_RECV) failing ->
  0 <= retry ->
  retry + Z.of_nat (length failing) <= to_size_t CCLIENT_SOCKET_RETRY + 1 ->
  exists response',
    retry_loop (failing ++ rest) service obj response RC_UTILS_SOCKET_RECV retry n =
    retry_loop rest service obj response' RC_UTILS_SOCKET_RECV
      (retry + Z.of_nat (length failing)) (n + length failing)%nat.
Proof.
  pose proof (to_size_t_range CCLIENT_SOCKET_RETRY) as HC.
  induction failing as [|conn failing IH]; intros response retry n Hmax Hall H0 Hle.
  - exists response. cbn [app length]. eq_arith.
  - apply Forall_cons in Hall as [Hconn Hall]. cbn [length] in Hle.
    destruct (Hconn response) as (response1 & wire & Hsend).
    cbn [app].
    rewrite (retry_loop_again conn (failing ++ rest) service obj response retry n
               _ _ _ ltac:(lia) Hsend).
    rewrite to_size_t_small by lia.
    destruct (IH response1 (retry + 1) (S n) Hmax Hall ltac:(lia) ltac:(lia))
      as (response' & ->).
    exists response'. cbn [length]. eq_arith.
Qed.

(** C4, as the code runs: the attempts end in [RC_UTILS_SOCKET_RECV]
    [k] times in a row and the next one returns [RC_OK].  With
    [k <= CCLIENT_SOCKET_RETRY + 1] the query returns [RC_OK] after
    [k + 1] attempts; with [k >= CCLIENT_SOCKET_RETRY + 2] it returns
    [RC_UTILS_SOCKET_RECV] after [CCLIENT_SOCKET_RETRY + 2] attempts.  So
    up to [CCLIENT_SOCKET_RETRY + 1] retries are made, one more than the
    ceiling: for [k = CCLIENT_SOCKET_RETRY + 1] the query succeeds where
    the ceiling is already exceeded, and when it gives up it has made
    [CCLIENT_SOCKET_RETRY + 2] attempts. *)
Theorem retry_count_is_ceiling_plus_one service obj response failing good rest :
  0 <= CCLIENT_SOCKET_RETRY < 2 ^ 64 - 1 ->
  Forall (attempt_gives service obj RC_UTILS_SOCKET_RECV) failing ->
  attempt_gives service obj RC_OK good ->
  let k := Z.of_nat (length failing) in
  let query :=
    iota_service_query (failing ++ good :: rest) (Some service) (Some obj) (Some response) in
  (k <= CCLIENT_SOCKET_RETRY + 1 ->
     exists response', query = Some (RC_OK, Some response', S (length failing))) /\
  (CCLIENT_SOCKET_RETRY + 2 <= k ->
     exists response',
       query = Some (RC_UTILS_SOCKET_RECV, Some response',
                     Z.to_nat (CCLIENT_SOCKET_RETRY + 2))).
Proof.
  intros HC Hfail Hgood k query. subst k query.
  assert (HCs : to_size_t CCLIENT_SOCKET_RETRY = CCLIENT_SOCKET_RETRY)
    by (apply to_size_t_small; lia).
  split.
  - intros Hk. destruct failing as [|conn failing].
    + destruct (Hgood response) as (response' & wire & Hsend).
      exists response'. cbn [app length].
      now rewrite (query_returns_at_once _ _ _ _ _ _ _ _ Hsend).
    + apply Forall_cons in Hfail as [Hconn Hfail]. cbn [length] in Hk.
      destruct (Hconn response) as (response1 & wire & Hsend).
      cbn [app]. rewrite (query_unfold _ _ _ _ _ _ _ _ Hsend).
      destruct (retry_loop_failures service obj (good :: rest) failing response1 0 1%nat
                  ltac:(lia) Hfail ltac:(lia) ltac:(lia)) as (response2 & ->).
      destruct (Hgood response2) as (response' & wire' & Hsend').
      rewrite (retry_loop_again good rest service obj response2
                 (0 + Z.of_nat (length failing)) (1 + length failing)%nat
                 _ _ _ ltac:(lia) Hsend').
      rewrite retry_loop_stop by discriminate.
      exists response'. cbn [fmap option_fmap option_map length]. eq_arith.
  - intros Hk.
    set (m := Z.to_nat (CCLIENT_SOCKET_RETRY + 1)).
    destruct failing as [|conn failing]; [cbn [length] in Hk; lia|].
    apply Forall_cons in Hfail as [Hconn Hfail]. cbn [length] in Hk.
    destruct (Hconn response) as (response1 & wire & Hsend).
    cbn [app]. rewrite (query_unfold _ _ _ _ _ _ _ _ Hsend).
    rewrite <- (take_drop m failing), <- app_assoc.
    assert (Hm : length (take m failing) = m) by (rewrite length_take; lia).
    destruct (retry_loop_failures service obj (drop m failing ++ good :: rest)
                (take m failing) response1 0 1%nat ltac:(lia)
                ltac:(apply Forall_take; exact Hfail) ltac:(lia) ltac:(lia))
      as (response2 & ->).
    rewrite retry_loop_break by lia.
    exists response2. cbn [fmap option_fmap option_map]. rewrite Hm.
    do 2 f_equal. unfold m. lia.
Qed.
End Retry.

(** ** C2, C3: what is retried, and on which buffer *)

Section RetryPolicy.
Context {G : HeaderGrammar} {B : CharBuffer} {C : SocketConfig}.

(** A header section that declares no length: [on_headers_complete]
    sets the status to [IOTA_REQUEST_STATUS_ERROR] and the parser stops
    at that byte. *)
Lemma execute_undeclared_length h ch cl ctx p rest declared :
  header_step h ch = h_complete declared ->
  to_size_t declared = UINT64_MAX ->
  http_parser_execute {| state := s_headers h; content_length := cl |} ctx [] p (ch :: rest) =
    (p, {| state := s_dead; content_length := UINT64_MAX |},
     {| response := response ctx; offset := offset ctx;
        status := IOTA_REQUEST_STATUS_ERROR |}).
Proof.
  intros Hstep Hmax. cbn [http_parser_execute state]. rewrite Hstep.
  unfold request_parse_header_complete. cbn [content_length].
  rewrite Hmax, Z.eqb_refl. reflexivity.
Qed.

(** A byte the header grammar rejects: the parser stops at it. *)
Lemma execute_malformed h ch cl ctx p rest :
  header_step h ch = h_error ->
  http_parser_execute {| state := s_headers h; content_length := cl |} ctx [] p (ch :: rest) =
    (p, {| state := s_dead; content_length := cl |}, ctx).
Proof. intros Hstep. cbn [http_parser_execute state]. now rewrite Hstep. Qed.

(** C2, as the code has it.  [http_response_read] returns
    [RC_CCLIENT_HTTP] when the transport reports the end of the stream
    or an error, and [RC_UTILS_SOCKET_RECV] when the parser consumed
    fewer bytes than were received or a callback set the error status,
    which is what a malformed header and a header without a length lead
    to.  [iota_service_query] returns at once, with the code unchanged,
    every code but [RC_UTILS_SOCKET_RECV], at the first attempt and at
    every later one; after [RC_UTILS_SOCKET_RECV] it makes another
    attempt, always after the first and then as long as the counter is
    within the ceiling.  So the failures of the parse are retried and the
    failures of the transport are not. *)
Theorem retried_iff_socket_recv :
  (forall e recvs parser ctx,
     num_received_of e <= 0 ->
     http_response_read_loop (e :: recvs) parser ctx =
       Some (RC_CCLIENT_HTTP, response ctx)) /\
  (forall bs recvs parser ctx parsed parser1 ctx1,
     bs <> [] ->
     http_parser_execute parser ctx [] 0 bs = (parsed, parser1, ctx1) ->
     parsed < Z.of_nat (length bs) \/ status ctx1 = IOTA_REQUEST_STATUS_ERROR ->
     http_response_read_loop (recv_data bs :: recvs) parser ctx =
       Some (RC_UTILS_SOCKET_RECV, response ctx1)) /\
  (forall h ch cl ctx rest declared,
     header_step h ch = h_complete declared ->
     to_size_t declared = UINT64_MAX ->
     status (snd (http_parser_execute {| state := s_headers h; content_length := cl |}
                    ctx [] 0 (ch :: rest))) = IOTA_REQUEST_STATUS_ERROR) /\
  (forall h ch cl ctx rest,
     header_step h ch = h_error ->
     fst (fst (http_parser_execute {| state := s_headers h; content_length := cl |}
                 ctx [] 0 (ch :: rest))) < Z.of_nat (length (ch :: rest))) /\
  (forall conn conns service obj response ret response1 wire,
     cclient_socket_send conn service obj response = Some (ret, response1, wire) ->
     ret <> RC_UTILS_SOCKET_RECV ->
     iota_service_query (conn :: conns) (Some service) (Some obj) (Some response) =
       Some (ret, Some response1, 1%nat)) /\
  (forall conn conn2 conns service obj response response1 wire ret2 response2 wire2,
     cclient_socket_send conn service obj response =
       Some (RC_UTILS_SOCKET_RECV, response1, wire) ->
     cclient_socket_send conn2 service obj response1 = Some (ret2, response2, wire2) ->
     iota_service_query (conn :: conn2 :: conns) (Some service) (Some obj) (Some response) =
       (fun '(r, b, n) => (r, Some b, n)) <$>
         retry_loop conns service obj response2 ret2 1 2%nat) /\
  (forall conns service obj response ret retry n,
     ret <> RC_UTILS_SOCKET_RECV ->
     retry_loop conns service obj response ret retry n = Some (ret, response, n)) /\
  (forall conn conns service obj response retry n ret' response' wire,
     retry <= to_size_t CCLIENT_SOCKET_RETRY ->
     cclient_socket_send conn service obj response = Some (ret', response', wire) ->
     retry_loop (conn :: conns) service obj response RC_UTILS_SOCKET_RECV retry n =
       retry_loop conns service obj response' ret' (to_size_t (retry + 1)) (S n)).
Proof.
  repeat split.
  - intros. now apply read_loop_end.
  - intros bs recvs parser ctx parsed parser1 ctx1 Hne Hexec Herr.
    rewrite (read_loop_chunk bs recvs parser ctx parsed parser1 ctx1 Hne Hexec).
    destruct Herr as [Hshort|Hst].
    + destruct (Z.ltb_spec parsed (Z.of_nat (length bs))); [reflexivity|lia].
    + rewrite Hst. cbn [status_eqb]. now rewrite orb_true_r.
  - intros h ch cl ctx rest declared Hstep Hmax.
    now rewrite (execute_undeclared_length h ch cl ctx 0 rest declared Hstep Hmax).
  - intros h ch cl ctx rest Hstep.
    rewrite (execute_malformed h ch cl ctx 0 rest Hstep). cbn [fst length]. lia.
  - intros. eapply query_returns_at_once; eauto.
  - intros. eapply query_retries_once; eauto.
  - intros. now apply retry_loop_stop.
  - intros. eapply retry_loop_again; eauto.
Qed.

Lemma failed_attempts_cons conn conns service obj response rf :
  failed_attempts service obj (conn :: conns) response = Some rf ->
  exists response' wire,
    cclient_socket_send conn service obj response =
      Some (RC_UTILS_SOCKET_RECV, response', wire) /\
    failed_attempts service obj conns response' = Some rf.
Proof.
  cbn [failed_attempts].
  destruct (cclient_socket_send conn service obj response) as [[[ret response'] wire]|];
    [|discriminate].
  destruct ret; try discriminate. eauto.
Qed.

(** The retry loop over attempts that all end in [RC_UTILS_SOCKET_RECV]
    and one more attempt: each runs on the buffer the one before left, and
    the loop returns what the last one gave. *)
Lemma retry_loop_chain service obj last rest ret rl wire :
  forall failing response rf retry n,
  0 <= CCLIENT_SOCKET_RETRY < 2 ^ 64 - 1 ->
  0 <= retry ->
  failed_attempts service obj failing response = Some rf ->
  cclient_socket_send last service obj rf = Some (ret, rl, wire) ->
  retry + Z.of_nat (length failing) <= CCLIENT_SOCKET_RETRY ->
  ret <> RC_UTILS_SOCKET_RECV \/
    retry + Z.of_nat (length failing) = CCLIENT_SOCKET_RETRY ->
  retry_loop (failing ++ last :: rest) service obj response RC_UTILS_SOCKET_RECV retry n =
    Some (ret, rl, S (n + length failing)).
Proof.
  induction failing as [|conn failing IH]; intros response rf retry n HC Hretry Hfail Hlast Hle Hend;
    assert (HCs : to_size_t CCLIENT_SOCKET_RETRY = CCLIENT_SOCKET_RETRY)
      by (apply to_size_t_small; lia).
  - cbn [failed_attempts] in Hfail. injection Hfail as ->.
    cbn [app length] in *.
    assert (Hr : retry <= to_size_t CCLIENT_SOCKET_RETRY) by lia.
    rewrite (retry_loop_again last rest service obj rf retry n ret rl wire Hr Hlast).
    rewrite to_size_t_small by lia. rewrite Nat.add_0_r.
    destruct (retcode_eqb ret RC_UTILS_SOCKET_RECV) eqn:E.
    + apply retcode_eqb_eq in E. subst ret.
      apply retry_loop_break. destruct Hend as [Hne|Heq]; [contradiction|lia].
    + apply retry_loop_stop. intros ->. discriminate E.
  - apply failed_attempts_cons in Hfail as (response' & wire' & Hsend & Hfail).
    cbn [app length] in *.
    assert (Hr : retry <= to_size_t CCLIENT_SOCKET_RETRY) by lia.
    rewrite (retry_loop_again conn _ service obj response retry n _ response' wire'
               Hr Hsend).
    rewrite to_size_t_small by lia.
    assert (H1 : 0 <= retry + 1) by lia.
    assert (H2 : retry + 1 + Z.of_nat (length failing) <= CCLIENT_SOCKET_RETRY) by lia.
    assert (H3 : ret <> RC_UTILS_SOCKET_RECV \/
                 retry + 1 + Z.of_nat (length failing) = CCLIENT_SOCKET_RETRY)
      by (destruct Hend; [left; assumption|right; lia]).
    rewrite (IH response' rf (retry + 1) (S n) HC H1 Hfail Hlast H2 H3).
    do 3 f_equal. lia.
Qed.

(** C3, as the code has it.  An attempt is a function of the connection,
    the request and the caller's response buffer alone: the parser and the
    response context are set up anew by every [http_response_read] and
    nothing else passes from one attempt to the next.  The response
    buffer does pass: it is the caller's object, written in place.  A
    query makes its attempts one after the other on that one buffer, each
    attempt after an [RC_UTILS_SOCKET_RECV] on the buffer as the failed
    attempt left it, and returns the code of its last attempt with the
    buffer as that attempt left it, whatever the code: the last attempt is
    the first that gives a code other than [RC_UTILS_SOCKET_RECV], or the
    one after [CCLIENT_SOCKET_RETRY + 1] attempts that gave it.  [failing]
    may be empty: then the first attempt is the last. *)
Theorem response_buffer_is_the_callers failing last rest service obj response
    rf ret rl wire :
  0 <= CCLIENT_SOCKET_RETRY < 2 ^ 64 - 1 ->
  failed_attempts service obj failing response = Some rf ->
  cclient_socket_send last service obj rf = Some (ret, rl, wire) ->
  Z.of_nat (length failing) <= CCLIENT_SOCKET_RETRY + 1 ->
  ret <> RC_UTILS_SOCKET_RECV \/
    Z.of_nat (length failing) = CCLIENT_SOCKET_RETRY + 1 ->
  iota_service_query (failing ++ last :: rest) (Some service) (Some obj) (Some response) =
    Some (ret, Some rl, S (length failing)).
Proof.
  intros HC Hfail Hlast Hle Hend.
  destruct failing as [|conn failing].
  - cbn [failed_attempts] in Hfail. injection Hfail as ->.
    cbn [app length] in *.
    apply (query_returns_at_once _ _ _ _ _ _ _ _ Hlast).
    destruct Hend as [Hne|Heq]; [exact Hne|lia].
  - apply failed_attempts_cons in Hfail as (response' & wire' & Hsend & Hfail).
    cbn [app length] in *.
    rewrite (query_unfold _ _ _ _ _ _ _ _ Hsend).
    assert (H2 : 0 + Z.of_nat (length failing) <= CCLIENT_SOCKET_RETRY) by lia.
    assert (H3 : ret <> RC_UTILS_SOCKET_RECV \/
                 0 + Z.of_nat (length failing) = CCLIENT_SOCKET_RETRY)
      by (destruct Hend; [left; assumption|right; lia]).
    rewrite (retry_loop_chain service obj last rest ret rl wire failing response' rf
               0 1%nat HC (Z.le_refl 0) Hfail Hlast H2 H3).
    reflexivity.
Qed.
End RetryPolicy.

(** ** The code run on concrete exchanges *)

(** The scenario of the spec: the request for [/api] on [node.example]
    with the body [hello world], answered by [hello] in three chunks, the
    header section in two and the body in one. *)
Example exchange_hello :
  @cclient_socket_send response_grammar fresh_allocator
    (conn_of [recv_data (take 17 response_hello);
              recv_data (take 21 (drop 17 response_hello));
              recv_data (lit "hello")])
    example_service example_body empty_buffer =
  Some (RC_OK, hello_buffer, example_header ++ lit "hello world")
  /\ buffer_bytes hello_buffer = lit "hello"
  /\ infixb (lit "Content-Length: 11" ++ crlf) example_header = true.
Proof. vm_compute. repeat split; reflexivity. Qed.

(** C2 as the spec states it fails, both ways.  The first attempt gets a
    response without a length: it ends in [RC_UTILS_SOCKET_RECV], a second
    attempt is made and its [RC_OK] is what the caller sees.  The first
    attempt loses its connection inside the body: it ends in
    [RC_CCLIENT_HTTP] and the query returns that after one attempt,
    though a second connection would have answered. *)
Lemma parse_failure_retried_transport_failure_not :
  (fst <$> @cclient_socket_send response_grammar fresh_allocator
     conn_undeclared example_service example_body empty_buffer) =
    Some (RC_UTILS_SOCKET_RECV, empty_buffer) /\
  @iota_service_query response_grammar fresh_allocator (retry_ceiling 5)
    [conn_undeclared; conn_hello]
    (Some example_service) (Some example_body) (Some empty_buffer) =
    Some (RC_OK, Some hello_buffer, 2%nat) /\
  @iota_service_query response_grammar fresh_allocator (retry_ceiling 5)
    [conn_cut; conn_hello]
    (Some example_service) (Some example_body) (Some empty_buffer) =
    Some (RC_CCLIENT_HTTP,
          Some {| buf_length := 5; buf_data := memcpy ∅ 0 (lit "he") |}, 1%nat).
Proof. vm_compute. repeat split; reflexivity. Qed.

(** C1 as the spec states it fails.  A response declares five body bytes
    and the peer sends eight.  When the eight come in one chunk, that chunk
    is accepted in part: the parser hands its first five bytes to
    [request_parse_data], which stores them, and the read returns
    [RC_UTILS_SOCKET_RECV], the code of a receive failure, which the query
    answers with another attempt; there is no overflow error.  When the
    three bytes too many come in a chunk of their own they are never
    received and the read returns [RC_OK].  In both cases the cell at
    index 5, the first past the declared length, is not written. *)
Lemma excess_body_bytes_are_cut_not_refused :
  let view := fun '(r, b) => (r, buf_length b, buffer_bytes b, buf_data b !! 5) in
  view <$> @http_response_read response_grammar fresh_allocator
    [recv_data (response_head (lit "5")); recv_data (lit "helloXYZ")] empty_buffer =
    Some (RC_UTILS_SOCKET_RECV, 5, lit "hello", None) /\
  view <$> @http_response_read response_grammar fresh_allocator
    [recv_data response_hello; recv_data (lit "XYZ"); recv_eof] empty_buffer =
    Some (RC_OK, 5, lit "hello", None) /\
  (fun '(r, _, n) => (r, n)) <$>
    @iota_service_query response_grammar fresh_allocator (retry_ceiling 5)
      [conn_of [recv_data (response_head (lit "5")); recv_data (lit "helloXYZ")];
       conn_hello]
      (Some example_service) (Some example_body) (Some empty_buffer) =
    Some (RC_OK, 2%nat).
Proof. vm_compute. repeat split; reflexivity. Qed.

(** C3 as the spec states it fails.  An attempt that fails after two body
    bytes leaves them, and the capacity, in the buffer the caller gets
    back: its first two cells hold [he].  And after an attempt that ended
    in [RC_UTILS_SOCKET_RECV] with [hello] stored, a second attempt that
    receives nothing returns [RC_CCLIENT_HTTP] with [hello] still in the
    buffer: it ran on the buffer of the first. *)
Lemma failed_attempt_leaves_bytes_in_the_buffer :
  (fun '(r, b, n) =>
     (r, (fun b => (buf_length b, buf_data b !! 0, buf_data b !! 1, buf_data b !! 2))
           <$> (b : option char_buffer_t), n)) <$>
    @iota_service_query response_grammar fresh_allocator (retry_ceiling 5)
      [conn_cut]
      (Some example_service) (Some example_body) (Some empty_buffer) =
    Some (RC_CCLIENT_HTTP, Some (5, Some "h"%byte, Some "e"%byte, None), 1%nat) /\
  (fun '(r, b, n) => (r, buffer_bytes <$> (b : option char_buffer_t), n)) <$>
    @iota_service_query response_grammar fresh_allocator (retry_ceiling 5)
      [conn_trailing; conn_closed]
      (Some example_service) (Some example_body) (Some empty_buffer) =
    Some (RC_CCLIENT_HTTP, Some (lit "hello"), 2%nat).
Proof. vm_compute. repeat split; reflexivity. Qed.

(** C5 as the spec states it fails: the bytes on the wire for the example
    request are the header and the body, and they hold the line
    [X-IOTA-API-Version: 1] but nowhere the run [X-API-Version: 1]. *)
Lemma version_line_is_not_x_api_version :
  (snd <$> @cclient_socket_send response_grammar fresh_allocator
     conn_hello example_service example_body empty_buffer) =
    Some (example_header ++ lit "hello world") /\
  infixb (lit "X-API-Version: 1") (example_header ++ lit "hello world") = false /\
  infixb (crlf ++ lit "X-IOTA-API-Version: 1" ++ crlf) example_header = true.
Proof. vm_compute. repeat split; reflexivity. Qed.

(** C9 as the spec states it fails: with a path of 1024 bytes the
    formatted header has 1163 bytes, and [sprintf] stores them all: the
    cell at index 1024, the first one after the array, receives a byte of
    the path and the cell at index 1163 the terminator.  The memory after
    the array is overwritten; no configuration error comes of it. *)
Lemma long_path_overruns_the_header_array :
  length (header_template (path long_path_settings) (host long_path_settings)
            (api_version long_path_settings) (content_type long_path_settings)
            (accept long_path_settings) 11) = 1163%nat /\
  header_buffer long_path_settings 11 !! 1023 = Some "a"%byte /\
  header_buffer long_path_settings 11 !! 1024 = Some "a"%byte /\
  header_buffer long_path_settings 11 !! 1163 = Some NUL /\
  strlen (header_buffer long_path_settings 11) = 1163.
Proof. vm_compute. repeat split; reflexivity. Qed.

(** A failed allocation sets the error status like a missing length does,
    and the attempt ends in [RC_UTILS_SOCKET_RECV]. *)
Example allocation_failure_is_socket_recv :
  @http_response_read response_grammar exhausted_allocator
    [recv_data response_hello] empty_buffer =
  Some (RC_UTILS_SOCKET_RECV, empty_buffer).
Proof. vm_compute. reflexivity. Qed.

(** The header is handed to one send call and its result is only compared
    with [-1]: when that call takes 10 bytes of the 143, the other 133 are
    never sent and the body follows the first 10 on the wire. *)
Example header_sent_in_part :
  snd <$> @cclient_socket_send response_grammar fresh_allocator
    {| sockfd := 3; send_results := [10; 11]; recv_results := [recv_data response_hello] |}
    example_service example_body empty_buffer =
  Some (lit "POST /api " ++ lit "hello world").
Proof. vm_compute. reflexivity. Qed.

(** ** The theorems at concrete inputs *)

Lemma stores_stay_within_declared_length_witness :
  let b := {| buf_length := 5;
              buf_data := <[4 := "o"%byte]> (<[3 := "l"%byte]> (<[2 := "l"%byte]>
                            (<[1 := "e"%byte]> (<[0 := "h"%byte]> ∅)))) |} in
  @http_response_read response_grammar fresh_allocator
    [recv_data (response_head (lit "5")); recv_data (lit "helloXYZ")] empty_buffer =
    Some (RC_UTILS_SOCKET_RECV, b) /\
  ((b = empty_buffer /\ RC_UTILS_SOCKET_RECV <> RC_OK) \/
   (exists declared rc buf,
      to_size_t declared <> UINT64_MAX /\
      @char_buffer_allocate fresh_allocator empty_buffer (to_size_t declared) = (rc, buf) /\
      ((rc <> RC_OK /\ b = buf /\ RC_UTILS_SOCKET_RECV = RC_UTILS_SOCKET_RECV) \/
       (rc = RC_OK /\
        exists written,
          Z.of_nat (length written) <= to_size_t declared /\
          stored_from_start buf b written /\
          (RC_UTILS_SOCKET_RECV = RC_OK ->
           Z.of_nat (length written) = to_size_t declared))))) /\
  (exists b',
     @http_response_read response_grammar fresh_allocator
       [recv_data (response_head (lit "5")); recv_data (lit "helloXYZ")] empty_buffer =
       Some (RC_UTILS_SOCKET_RECV, b') /\
     stored_from_start {| buf_length := 5; buf_data := ∅ |} b' (lit "hello")).
Proof.
  cbv zeta.
  destruct (@stores_stay_within_declared_length response_grammar fresh_allocator)
    as [Hbound Hexcess].
  assert (H : @http_response_read response_grammar fresh_allocator
                [recv_data (response_head (lit "5")); recv_data (lit "helloXYZ")]
                empty_buffer =
              Some (RC_UTILS_SOCKET_RECV,
                    {| buf_length := 5;
                       buf_data := <[4 := "o"%byte]> (<[3 := "l"%byte]> (<[2 := "l"%byte]>
                                     (<[1 := "e"%byte]> (<[0 := "h"%byte]> ∅)))) |}))
    by (vm_compute; reflexivity).
  split; [exact H|]. split; [exact (Hbound _ _ _ _ H)|].
  apply (Hexcess response_hello (lit "hello") [response_head (lit "5")] (lit "hello")
           (lit "XYZ") empty_buffer {| buf_length := 5; buf_data := ∅ |} []).
  - exists 5. split; [vm_compute; reflexivity|].
    split; [vm_compute; discriminate|vm_compute; reflexivity].
  - reflexivity.
  - vm_compute. reflexivity.
  - repeat constructor; vm_compute; discriminate.
  - vm_compute. discriminate.
  - vm_compute. discriminate.
Defined.

Lemma short_consume_is_an_error_witness :
  let bs := response_hello ++ lit "XYZ" in
  let run := @http_parser_execute response_grammar fresh_allocator
               http_parser_init (response_context_init empty_buffer) [] 0 bs in
  fst (fst run) = 43 /\
  43 < Z.of_nat (length bs) /\
  status (snd run) = IOTA_REQUEST_STATUS_DONE /\
  @http_response_read_loop response_grammar fresh_allocator
    [recv_data bs] http_parser_init (response_context_init empty_buffer) =
    Some (RC_UTILS_SOCKET_RECV, hello_buffer).
Proof.
  cbv zeta. split; [vm_compute; reflexivity|].
  split; [vm_compute; reflexivity|].
  split; [vm_compute; reflexivity|].
  apply (@short_consume_is_an_error response_grammar fresh_allocator []
           (response_hello ++ lit "XYZ") http_parser_init
           (response_context_init empty_buffer) 43
           (@Build_http_parser response_grammar s_dead 0)
           {| response := hello_buffer; offset := 5; status := IOTA_REQUEST_STATUS_DONE |}).
  - vm_compute. reflexivity.
  - vm_compute. reflexivity.
Defined.

Lemma premature_close_is_reported_witness :
  fst <$> @http_response_read response_grammar fresh_allocator
    ((recv_data <$> [take 20 response_hello; take 20 (drop 20 response_hello)])
       ++ [recv_eof]) empty_buffer = Some RC_CCLIENT_HTTP.
Proof.
  apply (@premature_close_is_reported response_grammar fresh_allocator
           [take 20 response_hello; take 20 (drop 20 response_hello)]
           5 (lit "he") empty_buffer {| buf_length := 5; buf_data := ∅ |} recv_eof []).
  - vm_compute. reflexivity.
  - vm_compute. discriminate.
  - reflexivity.
  - vm_compute. reflexivity.
  - vm_compute. discriminate.
Defined.

Lemma chunking_does_not_matter_witness :
  let view := fun '(r, b) =>
    (r, buf_length b, buffer_bytes b, buf_data b !! 0, buf_data b !! 4, buf_data b !! 5) in
  view <$> @http_response_read response_grammar fresh_allocator
    (recv_data <$> [take 20 response_hello; drop 20 response_hello]) empty_buffer =
    Some (RC_OK, 5, lit "hello", Some "h"%byte, Some "o"%byte, None) /\
  view <$> @http_response_read response_grammar fresh_allocator
    (recv_data <$> [take 17 response_hello; take 23 (drop 17 response_hello);
                    drop 40 response_hello]) empty_buffer =
    Some (RC_OK, 5, lit "hello", Some "h"%byte, Some "o"%byte, None).
Proof.
  assert (Hwf : @well_formed_response response_grammar response_hello (lit "hello")).
  { exists 5. split; [vm_compute; reflexivity|].
    split; [vm_compute; discriminate|vm_compute; reflexivity]. }
  cbv zeta. split.
  - rewrite <- (app_nil_r (recv_data <$> _)).
    destruct (@chunking_does_not_matter response_grammar fresh_allocator
                response_hello (lit "hello")
                [take 20 response_hello; drop 20 response_hello] empty_buffer
                {| buf_length := 5; buf_data := ∅ |} [] Hwf)
      as (b & -> & _ & _ & _ & _ & ->).
    + reflexivity.
    + vm_compute. reflexivity.
    + repeat constructor; vm_compute; discriminate.
    + vm_compute. reflexivity.
  - rewrite <- (app_nil_r (recv_data <$> _)).
    destruct (@chunking_does_not_matter response_grammar fresh_allocator
                response_hello (lit "hello")
                [take 17 response_hello; take 23 (drop 17 response_hello);
                 drop 40 response_hello] empty_buffer
                {| buf_length := 5; buf_data := ∅ |} [] Hwf)
      as (b & -> & _ & _ & _ & _ & ->).
    + reflexivity.
    + vm_compute. reflexivity.
    + repeat constructor; vm_compute; discriminate.
    + vm_compute. reflexivity.
Defined.

Lemma attempt_undeclared_fails :
  @attempt_gives response_grammar fresh_allocator example_service example_body
    RC_UTILS_SOCKET_RECV conn_undeclared.
Proof.
  intros response. exists response, (example_header ++ lit "hello world").
  vm_compute. reflexivity.
Defined.

Lemma attempt_hello_succeeds :
  @attempt_gives response_grammar fresh_allocator example_service example_body
    RC_OK conn_hello.
Proof.
  intros response. exists hello_buffer, (example_header ++ lit "hello world").
  vm_compute. reflexivity.
Defined.

Lemma retry_count_is_ceiling_plus_one_witness :
  (exists response',
     @iota_service_query response_grammar fresh_allocator (retry_ceiling 1)
       ([conn_undeclared; conn_undeclared] ++ [conn_hello])
       (Some example_service) (Some example_body) (Some empty_buffer) =
       Some (RC_OK, Some response', 3%nat)) /\
  (exists response',
     @iota_service_query response_grammar fresh_allocator (retry_ceiling 1)
       ([conn_undeclared; conn_undeclared; conn_undeclared] ++ [conn_hello])
       (Some example_service) (Some example_body) (Some empty_buffer) =
       Some (RC_UTILS_SOCKET_RECV, Some response', 3%nat)).
Proof.
  split.
  - apply (@retry_count_is_ceiling_plus_one response_grammar fresh_allocator
             (retry_ceiling 1) example_service example_body empty_buffer
             [conn_undeclared; conn_undeclared] conn_hello []).
    + cbn. lia.
    + repeat constructor; apply attempt_undeclared_fails.
    + apply attempt_hello_succeeds.
    + cbn. lia.
  - apply (@retry_count_is_ceiling_plus_one response_grammar fresh_allocator
             (retry_ceiling 1) example_service example_body empty_buffer
             [conn_undeclared; conn_undeclared; conn_undeclared] conn_hello []).
    + cbn. lia.
    + repeat constructor; apply attempt_undeclared_fails.
    + apply attempt_hello_succeeds.
    + cbn. lia.
Defined.

Lemma request_wire_format_witness :
  @cclient_socket_send response_grammar fresh_allocator
    conn_hello example_service example_body empty_buffer =
    Some (RC_OK, hello_buffer, example_header ++ lit "hello world").
Proof.
  destruct (@request_wire_format response_grammar fresh_allocator
              conn_hello example_service example_body empty_buffer [11] [])
    as [_ H].
  - vm_compute. discriminate.
  - cbn. lia.
  - vm_compute. reflexivity.
  - reflexivity.
  - vm_compute. repeat split; discriminate.
  - rewrite H. vm_compute. reflexivity.
Defined.

Lemma header_send_error_goes_unnoticed_witness :
  @cclient_socket_send response_grammar fresh_allocator
    conn_header_send_fails example_service example_body empty_buffer =
    Some (RC_OK, hello_buffer, lit "hello world").
Proof.
  rewrite (@header_send_error_goes_unnoticed response_grammar fresh_allocator
             conn_header_send_fails example_service example_body empty_buffer (-2) [11]).
  - vm_compute. reflexivity.
  - vm_compute. discriminate.
  - reflexivity.
  - vm_compute. reflexivity.
  - discriminate.
Defined.

Lemma header_format_is_unbounded_witness :
  header_buffer (http example_service) 11 !! 1024 = None /\
  http_request_header [143] [] (http example_service) 11 = Some (143, [], example_header) /\
  header_buffer long_path_settings 11 !! 1024 = Some "a"%byte.
Proof.
  destruct (header_format_is_unbounded (http example_service) 11) as (Hin & _).
  destruct (header_format_is_unbounded long_path_settings 11) as (_ & Hout).
  cbv zeta in Hin, Hout.
  destruct Hin as [Hin Hsend]; [vm_compute; reflexivity|].
  split; [|split].
  - destruct (header_buffer (http example_service) 11 !! 1024) eqn:E; [|reflexivity].
    exfalso. assert (H : 0 <= 1024 < 1024) by (apply Hin; eauto).
    lia.
  - rewrite Hsend. vm_compute. reflexivity.
  - destruct (Hout ltac:(vm_compute; discriminate) 1024%nat
                ltac:(vm_compute; split; apply Nat.leb_le; reflexivity)) as [Hbyte _].
    etransitivity; [exact Hbyte|]. vm_compute. reflexivity.
Defined.

Lemma retried_iff_socket_recv_witness :
  @iota_service_query response_grammar fresh_allocator (retry_ceiling 5)
    [conn_closed; conn_hello]
    (Some example_service) (Some example_body) (Some empty_buffer) =
    Some (RC_CCLIENT_HTTP, Some empty_buffer, 1%nat).
Proof.
  destruct (@retried_iff_socket_recv response_grammar fresh_allocator (retry_ceiling 5))
    as (_ & _ & _ & _ & H & _).
  apply (H conn_closed [conn_hello] example_service example_body empty_buffer
           RC_CCLIENT_HTTP empty_buffer (example_header ++ lit "hello world")).
  - vm_compute. reflexivity.
  - discriminate.
Defined.

Lemma response_buffer_is_the_callers_witness :
  (fun '(r, b, n) => (r, buffer_bytes <$> (b : option char_buffer_t), n)) <$>
    @iota_service_query response_grammar fresh_allocator (retry_ceiling 5)
      [conn_trailing; conn_undeclared; conn_closed; conn_hello]
      (Some example_service) (Some example_body) (Some empty_buffer) =
    Some (RC_CCLIENT_HTTP, Some (lit "hello"), 3%nat).
Proof.
  change [conn_trailing; conn_undeclared; conn_closed; conn_hello]
    with ([conn_trailing; conn_undeclared] ++ conn_closed :: [conn_hello]).
  rewrite (@response_buffer_is_the_callers response_grammar fresh_allocator (retry_ceiling 5)
             [conn_trailing; conn_undeclared] conn_closed [conn_hello]
             example_service example_body empty_buffer
             hello_buffer RC_CCLIENT_HTTP hello_buffer
             (example_header ++ lit "hello world")).
  - vm_compute. reflexivity.
  - cbn. lia.
  - vm_compute. reflexivity.
  - vm_compute. reflexivity.
  - cbn. lia.
  - left. discriminate.
Defined.

(** * Further properties of http.c *)

(** ** The body callback and the body loop *)

(** Two body events in a row store what one event with both runs of bytes
    stores, as long as the offset does not wrap between them. *)
Theorem request_parse_data_composes (ctx : _response_ctx) (a b : list byte) :
  0 <= offset ctx ->
  offset ctx + Z.of_nat (length a) < 2 ^ 64 ->
  request_parse_data (snd (request_parse_data ctx a)) b =
    request_parse_data ctx (a ++ b).
Proof.
  intros H0 Ha. unfold request_parse_data. cbn [snd response offset status buf_length buf_data].
  rewrite to_size_t_small by lia.
  rewrite memcpy_at_app, length_app, Nat2Z.inj_add.
  unfold to_size_t. rewrite Z.add_assoc. reflexivity.
Qed.

Lemma read_total_sent_step mem ptr n total :
  0 <= n -> 0 <= total ->
  read mem ptr n ++ read mem (ptr + n) total = read mem ptr (n + total).
Proof. intros Hn Ht. now rewrite read_app. Qed.

Lemma sends_leave_total results : forall remaining,
  sends_leave results remaining -> 0 <= total_sent results < remaining.
Proof.
  induction results as [|n results IH]; intros remaining H; cbn [sends_leave total_sent foldr] in *.
  - lia.
  - destruct H as [Hn H]. apply IH in H. fold (total_sent results). lia.
Qed.

(** A failing call after calls that left some of the body. *)
Lemma http_request_data_aborts data rest e : forall results wire ptr data_length,
  data_length < 2 ^ 64 ->
  sends_leave results data_length ->
  e < 0 ->
  http_request_data (results ++ e :: rest) wire data ptr data_length =
    Some (RC_UTILS_SOCKET_SEND, rest, wire ++ read data ptr (total_sent results)).
Proof.
  induction results as [|n results IH]; intros wire ptr data_length Hmax Hleave He;
    cbn [sends_leave] in Hleave.
  - cbn [app total_sent foldr]. rewrite http_request_data_error by lia.
    now rewrite read_nonpos, app_nil_r by lia.
  - destruct Hleave as [Hn Hleave].
    pose proof (sends_leave_total results _ Hleave) as Htot.
    cbn [app]. rewrite http_request_data_step by lia.
    rewrite to_size_t_small by lia.
    assert (Hmax' : data_length - n < 2 ^ 64) by lia.
    rewrite (IH _ _ _ Hmax' Hleave He).
    unfold transmitted. rewrite Z.min_l by lia.
    rewrite <- app_assoc, read_total_sent_step by lia.
    reflexivity.
Qed.

(** The body loop.  When the send calls take the body piece by piece, a
    piece may be empty, the loop returns [RC_OK] with the whole body on the
    wire in order and makes no call more.  When a call fails after calls
    that left some of the body, the loop returns [RC_UTILS_SOCKET_SEND] at
    once, and the wire holds exactly the bytes the earlier calls
    reported. *)
Theorem body_loop_outcome data rest wire ptr data_length results :
  data_length < 2 ^ 64 ->
  (sends_cover results data_length ->
     http_request_data (results ++ rest) wire data ptr data_length =
       Some (RC_OK, rest, wire ++ read data ptr data_length)) /\
  (sends_leave results data_length ->
     forall e, e < 0 ->
     http_request_data (results ++ e :: rest) wire data ptr data_length =
       Some (RC_UTILS_SOCKET_SEND, rest, wire ++ read data ptr (total_sent results))).
Proof.
  intros Hmax. split.
  - intros Hcover. now apply http_request_data_partial_sends.
  - intros Hleave e He. now apply http_request_data_aborts.
Qed.

(** ** One attempt and the query when the request cannot be sent *)

Section SendFailures.
Context {G : HeaderGrammar} {B : CharBuffer} {C : SocketConfig}.

(** The header, when it fits the array of 1024 bytes, goes out in one
    send call.  When that call takes only the first [n] bytes, the rest of
    the header is never sent: the body follows those [n] bytes on the wire
    and the attempt goes on to read the response. *)
Theorem header_is_sent_by_one_call conn service obj response n results rest :
  let settings := http service in
  let header := header_template (path settings) (host settings)
      (api_version settings) (content_type settings) (accept settings)
      (buf_length obj) in
  0 <= sockfd conn ->
  Z.of_nat (length header) < 1024 ->
  0 <= n ->
  buf_length obj < 2 ^ 64 ->
  send_results conn = n :: results ++ rest ->
  sends_cover results (buf_length obj) ->
  cclient_socket_send conn service obj response =
    (fun '(r, b) => (r, b, take (Z.to_nat n) header ++ buffer_bytes obj)) <$>
      http_response_read (recv_results conn) response.
Proof.
  intros settings header Hfd Hfit Hn Hlen Hsends Hcover.
  unfold cclient_socket_send. fold settings.
  destruct (Z.geb_spec (sockfd conn) 0) as [_|]; [|lia].
  rewrite Hsends, http_request_header_eq. fold header. cbn [mbind option_bind app].
  destruct (Z.eqb_spec n (-1)) as [E|_]; [lia|]. cbn [negb].
  rewrite (http_request_data_partial_sends (buf_data obj) rest results _ 0
             (buf_length obj) Hcover Hlen).
  cbn [mbind option_bind retcode_eqb].
  destruct (http_response_read (recv_results conn) response) as [[r b]|]; reflexivity.
Qed.

(** A connection that cannot be made: the attempt sends nothing and the
    query returns [RC_UTILS_SOCKET_CONNECT] after that one attempt, with
    the response buffer as it was. *)
Theorem connect_failure_is_final conn conns service obj response :
  sockfd conn < 0 ->
  cclient_socket_send conn service obj response =
    Some (RC_UTILS_SOCKET_CONNECT, response, []) /\
  iota_service_query (conn :: conns) (Some service) (Some obj) (Some response) =
    Some (RC_UTILS_SOCKET_CONNECT, Some response, 1%nat).
Proof.
  intros Hfd.
  assert (Hsend : cclient_socket_send conn service obj response =
                    Some (RC_UTILS_SOCKET_CONNECT, response, [])).
  { unfold cclient_socket_send.
    destruct (Z.geb_spec (sockfd conn) 0); [lia|reflexivity]. }
  split; [exact Hsend|].
  apply (query_returns_at_once _ _ _ _ _ _ _ _ Hsend). discriminate.
Qed.

(** The send call for a header that fits the array of 1024 bytes answers
    [-1]: the body is not sent, the response is not read, and the query
    returns [RC_CCLIENT_HTTP_REQ] after that one attempt, with the
    response buffer as it was. *)
Theorem header_send_failure_is_final conn conns service obj response sends :
  let settings := http service in
  let header := header_template (path settings) (host settings)
      (api_version settings) (content_type settings) (accept settings)
      (buf_length obj) in
  0 <= sockfd conn ->
  Z.of_nat (length header) < 1024 ->
  send_results conn = -1 :: sends ->
  cclient_socket_send conn service obj response =
    Some (RC_CCLIENT_HTTP_REQ, response, []) /\
  iota_service_query (conn :: conns) (Some service) (Some obj) (Some response) =
    Some (RC_CCLIENT_HTTP_REQ, Some response, 1%nat).
Proof.
  intros settings header Hfd Hfit Hsends.
  assert (Hsend : cclient_socket_send conn service obj response =
                    Some (RC_CCLIENT_HTTP_REQ, response, [])).
  { unfold cclient_socket_send.
    destruct (Z.geb_spec (sockfd conn) 0); [|lia].
    rewrite Hsends, http_request_header_eq. reflexivity. }
  split; [exact Hsend|].
  apply (query_returns_at_once _ _ _ _ _ _ _ _ Hsend). discriminate.
Qed.

(** A send call fails inside the body, after a header that fits the array
    of 1024 bytes: the response is not read, the wire holds what of the
    header the first call took and the body bytes sent before the failure,
    and the query returns [RC_UTILS_SOCKET_SEND] after that one attempt,
    with the response buffer as it was. *)
Theorem body_send_failure_is_final conn conns service obj response n results e rest :
  let settings := http service in
  let header := header_template (path settings) (host settings)
      (api_version settings) (content_type settings) (accept settings)
      (buf_length obj) in
  let wire := take (Z.to_nat n) header ++ read (buf_data obj) 0 (total_sent results) in
  0 <= sockfd conn ->
  Z.of_nat (length header) < 1024 ->
  0 <= n ->
  buf_length obj < 2 ^ 64 ->
  send_results conn = n :: results ++ e :: rest ->
  sends_leave results (buf_length obj) ->
  e < 0 ->
  cclient_socket_send conn service obj response =
    Some (RC_UTILS_SOCKET_SEND, response, wire) /\
  iota_service_query (conn :: conns) (Some service) (Some obj) (Some response) =
    Some (RC_UTILS_SOCKET_SEND, Some response, 1%nat).
Proof.
  intros settings header wire Hfd Hfit Hn Hlen Hsends Hleave He.
  assert (Hsend : cclient_socket_send conn service obj response =
                    Some (RC_UTILS_SOCKET_SEND, response, wire)).
  { unfold cclient_socket_send. fold settings.
    destruct (Z.geb_spec (sockfd conn) 0); [|lia].
    rewrite Hsends, http_request_header_eq. fold header. cbn [mbind option_bind app].
    destruct (Z.eqb_spec n (-1)) as [E|_]; [lia|]. cbn [negb].
    rewrite (http_request_data_aborts (buf_data obj) rest e results _ 0
               (buf_length obj) Hlen Hleave He).
    reflexivity. }
  split; [exact Hsend|].
  apply (query_returns_at_once _ _ _ _ _ _ _ _ Hsend). discriminate.
Qed.
End SendFailures.

(** ** The receive loop when the headers give no body to read *)

Section HeaderOutcomes.
Context {G : HeaderGrammar} {B : CharBuffer}.

Lemma read_loop_headers_refused declared rest ctx1 recvs : forall chunks h cl ctx,
  Forall (fun c => c <> []) chunks ->
  status ctx = IOTA_REQUEST_STATUS_OK ->
  header_section h (concat chunks) = Some (declared, rest) ->
  (forall st,
     request_parse_header_complete
       {| state := st; content_length := to_size_t declared |} ctx = (-1, ctx1)) ->
  http_response_read_loop ((recv_data <$> chunks) ++ recvs)
    {| state := s_headers h; content_length := cl |} ctx =
    Some (RC_UTILS_SOCKET_RECV, response ctx1).
Proof.
  induction chunks as [|a chunks IH]; intros h cl ctx Hall Hst Hsec Hcb;
    [discriminate|].
  apply Forall_cons in Hall as [Ha Hall].
  cbn [fmap list_fmap app]. fold (fmap (M:=list) recv_data chunks).
  cbn [concat] in Hsec.
  destruct (header_section_split a h (concat chunks) declared rest Hsec)
    as [(a2 & Ha2 & _)|(h' & Hrun & Hrest)].
  - rewrite (read_loop_chunk a _ _ ctx _ _ _ Ha
               (execute_headers_refused a h cl ctx 0 declared a2 ctx1 Ha2 Hcb)).
    destruct (Z.ltb_spec (0 + Z.of_nat (length a) - Z.of_nat (length a2) - 1)
                (Z.of_nat (length a))); [reflexivity|lia].
  - rewrite (read_loop_chunk a _ _ ctx _ _ _ Ha (Hrun cl ctx 0)).
    rewrite Z.add_0_l, Z.ltb_irrefl, Hst. cbn [orb status_eqb].
    now apply IH.
Qed.

(** A response whose header section states no length, cut into non-empty
    chunks in any way and whatever follows the header section:
    [http_response_read] returns [RC_UTILS_SOCKET_RECV], no buffer is
    allocated and the caller's buffer is as it was. *)
Theorem undeclared_length_is_socket_recv chunks declared rest response recvs :
  Forall (fun c => c <> []) chunks ->
  header_section header_init (concat chunks) = Some (declared, rest) ->
  to_size_t declared = UINT64_MAX ->
  http_response_read ((recv_data <$> chunks) ++ recvs) response =
    Some (RC_UTILS_SOCKET_RECV, response).
Proof.
  intros Hall Hsec Hmax. unfold http_response_read, http_parser_init.
  apply (read_loop_headers_refused declared rest
           {| response := response; offset := 0; status := IOTA_REQUEST_STATUS_ERROR |}
           recvs chunks header_init UINT64_MAX (response_context_init response)
           Hall eq_refl Hsec).
  intros st. unfold request_parse_header_complete. cbn [content_length].
  now rewrite Hmax, Z.eqb_refl.
Qed.

(** A response that declares a finite length for which the allocation
    fails, cut into non-empty chunks in any way:
    [http_response_read] returns [RC_UTILS_SOCKET_RECV], not the code of
    the allocation, and the caller's buffer is as the allocation left
    it. *)
Theorem failed_allocation_is_socket_recv chunks declared rest response0
    rc buf recvs :
  Forall (fun c => c <> []) chunks ->
  header_section header_init (concat chunks) = Some (declared, rest) ->
  to_size_t declared <> UINT64_MAX ->
  char_buffer_allocate response0 (to_size_t declared) = (rc, buf) ->
  rc <> RC_OK ->
  http_response_read ((recv_data <$> chunks) ++ recvs) response0 =
    Some (RC_UTILS_SOCKET_RECV, buf).
Proof.
  intros Hall Hsec Hfin Halloc Hrc. unfold http_response_read, http_parser_init.
  apply (read_loop_headers_refused declared rest
           {| response := buf; offset := 0; status := IOTA_REQUEST_STATUS_ERROR |}
           recvs chunks header_init UINT64_MAX (response_context_init response0)
           Hall eq_refl Hsec).
  intros st. unfold request_parse_header_complete.
  cbn [content_length response_context_init response offset].
  destruct (Z.eqb_spec (to_size_t declared) UINT64_MAX); [contradiction|].
  rewrite Halloc. now rewrite retcode_eqb_neq.
Qed.

Lemma read_loop_rejected recvs response : forall chunks h cl r,
  Forall (fun c => c <> []) chunks ->
  header_scan h (concat chunks) = scan_rejected r ->
  http_response_read_loop ((recv_data <$> chunks) ++ recvs)
    {| state := s_headers h; content_length := cl |} (response_context_init response) =
    Some (RC_UTILS_SOCKET_RECV, response).
Proof.
  induction chunks as [|a chunks IH]; intros h cl r Hall Hscan; [discriminate|].
  apply Forall_cons in Hall as [Ha Hall].
  cbn [fmap list_fmap app]. fold (fmap (M:=list) recv_data chunks).
  cbn [concat] in Hscan. rewrite header_scan_app in Hscan.
  destruct (header_scan h a) as [h'|d r'|r'] eqn:Ea; [|discriminate|].
  - rewrite (read_loop_chunk a _ _ _ _ _ _ Ha
               (execute_scan_incomplete a h h' cl _ 0 Ea)).
    rewrite Z.add_0_l, Z.ltb_irrefl. cbn [orb status_eqb status response_context_init].
    now apply (IH h' cl r).
  - destruct (execute_scan_rejected a h r' cl (response_context_init response) 0 Ea)
      as [Hexec Hr'].
    rewrite (read_loop_chunk a _ _ _ _ _ _ Ha Hexec).
    destruct (Z.ltb_spec (0 + Z.of_nat (length a) - Z.of_nat (length r'))
                (Z.of_nat (length a))); [reflexivity|lia].
Qed.

(** A response with a byte the header grammar rejects, cut into non-empty
    chunks in any way: [http_response_read] returns
    [RC_UTILS_SOCKET_RECV] and the caller's buffer is as it was. *)
Theorem malformed_header_is_socket_recv chunks r response recvs :
  Forall (fun c => c <> []) chunks ->
  header_scan header_init (concat chunks) = scan_rejected r ->
  http_response_read ((recv_data <$> chunks) ++ recvs) response =
    Some (RC_UTILS_SOCKET_RECV, response).
Proof.
  intros Hall Hscan. unfold http_response_read, http_parser_init.
  now apply (read_loop_rejected recvs response chunks header_init UINT64_MAX r).
Qed.

Lemma read_loop_incomplete e recvs response : forall chunks h cl h',
  num_received_of e <= 0 ->
  header_scan h (concat chunks) = scan_incomplete h' ->
  http_response_read_loop ((recv_data <$> chunks) ++ e :: recvs)
    {| state := s_headers h; content_length := cl |} (response_context_init response) =
    Some (RC_CCLIENT_HTTP, response).
Proof.
  induction chunks as [|a chunks IH]; intros h cl h' He Hscan.
  - cbn [fmap list_fmap app]. now rewrite read_loop_end.
  - cbn [fmap list_fmap app]. fold (fmap (M:=list) recv_data chunks).
    destruct a as [|ch a]; [now rewrite read_loop_end|].
    cbn [concat] in Hscan. rewrite header_scan_app in Hscan.
    destruct (header_scan h (ch :: a)) as [h1|d r'|r'] eqn:Ea; [|discriminate..].
    rewrite (read_loop_chunk (ch :: a) _ _ _ _ _ _ ltac:(discriminate)
               (execute_scan_incomplete (ch :: a) h h1 cl _ 0 Ea)).
    rewrite Z.add_0_l, Z.ltb_irrefl. cbn [orb status_eqb status response_context_init].
    now apply (IH h1 cl h').
Qed.

(** The stream ends, or a receive fails, before the header section is
    complete, be it before the first byte: [http_response_read] returns
    [RC_CCLIENT_HTTP] and the caller's buffer is as it was. *)
Theorem close_inside_headers_leaves_the_buffer chunks h' e response recvs :
  header_scan header_init (concat chunks) = scan_incomplete h' ->
  num_received_of e <= 0 ->
  http_response_read ((recv_data <$> chunks) ++ e :: recvs) response =
    Some (RC_CCLIENT_HTTP, response).
Proof.
  intros Hscan He. unfold http_response_read, http_parser_init.
  now apply (read_loop_incomplete e recvs response chunks header_init UINT64_MAX h').
Qed.
End HeaderOutcomes.

(** ** The receive loop: what the caller finds, and which codes *)

Section ReadOutcomes.
Context {G : HeaderGrammar} {B : CharBuffer}.

Lemma read_loop_starved_buffer response0 buf declared body e recvs :
  to_size_t declared <> UINT64_MAX ->
  char_buffer_allocate response0 (to_size_t declared) = (RC_OK, buf) ->
  Z.of_nat (length body) < to_size_t declared ->
  num_received_of e <= 0 ->
  forall chunks parser ctx,
  Forall (fun c => c <> []) chunks ->
  reading response0 buf declared body parser ctx (concat chunks) ->
  exists parser' ctx',
    reading response0 buf declared body parser' ctx' [] /\
    http_response_read_loop ((recv_data <$> chunks) ++ e :: recvs) parser ctx =
      Some (RC_CCLIENT_HTTP, response ctx').
Proof.
  intros Hfinite Halloc Hshort He.
  induction chunks as [|a chunks IH]; intros parser ctx Hall Hread.
  - exists parser, ctx. split; [exact Hread|].
    cbn [fmap list_fmap app]. now rewrite read_loop_end.
  - apply Forall_cons in Hall as [Ha Hall].
    cbn [fmap list_fmap app]. fold (fmap (M:=list) recv_data chunks).
    cbn [concat] in Hread.
    destruct (execute_chunk_inside response0 buf declared body a
                (concat chunks) parser ctx Hfinite Halloc ltac:(lia) Hread
                ltac:(right; lia))
      as (parser1 & ctx1 & Hexec & Hst & Hread1).
    rewrite (read_loop_chunk a _ parser ctx _ parser1 ctx1 Ha Hexec).
    rewrite Z.ltb_irrefl, Hst. cbn [orb status_eqb].
    now apply IH.
Qed.

(** The stream ends, or a receive fails, inside the body of a response
    that came in non-empty chunks: [http_response_read] returns
    [RC_CCLIENT_HTTP] and leaves in the caller's buffer the allocation for
    the declared length with the body bytes received so far stored from
    offset 0.  Cell [k] holds the [k]-th of those bytes, every other cell
    is as the allocation left it, and reading as many bytes as were
    received from the start of the buffer gives them back. *)
Theorem close_inside_body_leaves_what_arrived chunks declared body response buf e recvs :
  Forall (fun c => c <> []) chunks ->
  header_section header_init (concat chunks) = Some (declared, body) ->
  to_size_t declared <> UINT64_MAX ->
  char_buffer_allocate response (to_size_t declared) = (RC_OK, buf) ->
  Z.of_nat (length body) < to_size_t declared ->
  num_received_of e <= 0 ->
  exists b,
    http_response_read ((recv_data <$> chunks) ++ e :: recvs) response =
      Some (RC_CCLIENT_HTTP, b) /\
    buf_length b = buf_length buf /\
    (forall k, (k < length body)%nat -> buf_data b !! Z.of_nat k = body !! k) /\
    (forall i, ~ (0 <= i < Z.of_nat (length body)) ->
       buf_data b !! i = buf_data buf !! i) /\
    read (buf_data b) 0 (Z.of_nat (length body)) = body /\
    b = {| buf_length := buf_length buf; buf_data := memcpy (buf_data buf) 0 body |}.
Proof.
  intros Hall Hsec Hfinite Halloc Hshort He.
  exists {| buf_length := buf_length buf; buf_data := memcpy (buf_data buf) 0 body |}.
  destruct (stored_from_start_memcpy buf body) as (Hl & Hin & Hout).
  split; [|split; [exact Hl|split; [exact Hin|split; [exact Hout|split]]]].
  - unfold http_response_read.
    destruct (read_loop_starved_buffer response buf declared body e recvs
                Hfinite Halloc Hshort He chunks http_parser_init
                (response_context_init response) Hall
                (reading_start response buf declared body _ Hsec))
      as (parser' & ctx' & Hend & ->).
    destruct Hend as [(h & _ & _ & Hnone)|(written & Hw & _ & ->)].
    + discriminate Hnone.
    + rewrite app_nil_r in Hw. now subst written.
  - cbn [buf_data]. apply read_memcpy.
  - reflexivity.
Qed.

Lemma read_loop_codes : forall recvs parser ctx r b,
  http_response_read_loop recvs parser ctx = Some (r, b) ->
  r = RC_OK \/ r = RC_UTILS_SOCKET_RECV \/ r = RC_CCLIENT_HTTP.
Proof.
  induction recvs as [|e recvs IH]; intros parser ctx r b H;
    cbn [http_response_read_loop] in H; [discriminate|].
  destruct (num_received_of e >? 0).
  - destruct (http_parser_execute parser ctx [] 0 (received_bytes e))
      as [[parsed parser1] ctx1].
    destruct ((parsed <? num_received_of e)
              || status_eqb (status ctx1) IOTA_REQUEST_STATUS_ERROR).
    + injection H as <- _. auto.
    + destruct (status_eqb (status ctx1) IOTA_REQUEST_STATUS_DONE).
      * injection H as <- _. auto.
      * eauto.
  - destruct (num_received_of e <=? 0); injection H as <- _; auto.
Qed.

Lemma read_loop_returns : forall recvs parser ctx,
  Exists (fun e => num_received_of e <= 0) recvs ->
  is_Some (http_response_read_loop recvs parser ctx).
Proof.
  induction recvs as [|e recvs IH]; intros parser ctx Hex.
  - now apply Exists_nil in Hex.
  - destruct (Z.le_gt_cases (num_received_of e) 0) as [He|He].
    + rewrite read_loop_end by exact He. eauto.
    + apply Exists_cons in Hex as [Hex|Hex]; [lia|].
      cbn [http_response_read_loop].
      destruct (Z.gtb_spec (num_received_of e) 0); [|lia].
      destruct (http_parser_execute parser ctx [] 0 (received_bytes e))
        as [[parsed parser1] ctx1].
      destruct ((parsed <? num_received_of e)
                || status_eqb (status ctx1) IOTA_REQUEST_STATUS_ERROR); [eauto|].
      destruct (status_eqb (status ctx1) IOTA_REQUEST_STATUS_DONE); [eauto|].
      now apply IH.
Qed.

(** [http_response_read] returns as soon as the transport reports the end
    of the stream or an error, at the latest, and the codes it returns are
    [RC_OK], [RC_UTILS_SOCKET_RECV] and [RC_CCLIENT_HTTP] and no other:
    the code of a failed allocation, for one, does not come out of it. *)
Theorem response_read_returns_three_codes recvs response :
  (Exists (fun e => num_received_of e <= 0) recvs ->
     is_Some (http_response_read recvs response)) /\
  (forall r b,
     http_response_read recvs response = Some (r, b) ->
     r = RC_OK \/ r = RC_UTILS_SOCKET_RECV \/ r = RC_CCLIENT_HTTP).
Proof.
  split.
  - intros Hex. now apply read_loop_returns.
  - intros r b H. exact (read_loop_codes _ _ _ r b H).
Qed.

End ReadOutcomes.

(** ** The query: how many attempts, and which codes *)

Section QueryOutcomes.
Context {G : HeaderGrammar} {B : CharBuffer} {C : SocketConfig}.

Lemma retcode_recv_or_not (ret : retcode_t) :
  {ret = RC_UTILS_SOCKET_RECV} + {ret <> RC_UTILS_SOCKET_RECV}.
Proof. destruct ret; (left; reflexivity) || (right; discriminate). Qed.

Lemma retry_loop_bound service obj : forall conns response ret retry n r b m,
  0 <= CCLIENT_SOCKET_RETRY < 2 ^ 64 - 1 ->
  0 <= retry <= CCLIENT_SOCKET_RETRY + 1 ->
  Z.of_nat n = retry + 1 ->
  retry_loop conns service obj response ret retry n = Some (r, b, m) ->
  (n <= m)%nat /\
  Z.of_nat m <= CCLIENT_SOCKET_RETRY + 2 /\
  (r = RC_UTILS_SOCKET_RECV -> Z.of_nat m = CCLIENT_SOCKET_RETRY + 2).
Proof.
  intros conns response ret retry n r b m HC.
  assert (HCs : to_size_t CCLIENT_SOCKET_RETRY = CCLIENT_SOCKET_RETRY)
    by (apply to_size_t_small; lia).
  revert response ret retry n.
  induction conns as [|conn conns IH]; intros response ret retry n Hretry Hn H.
  - destruct (retcode_recv_or_not ret) as [->|Hret].
    + cbn [retry_loop retcode_eqb] in H. rewrite HCs in H.
      destruct (Z.gtb_spec retry CCLIENT_SOCKET_RETRY); [|discriminate].
      injection H as <- _ <-. repeat split; lia.
    + rewrite retry_loop_stop in H by exact Hret.
      injection H as <- _ <-. repeat split; try lia. intros ->. contradiction.
  - destruct (retcode_recv_or_not ret) as [->|Hret].
    + destruct (Z.le_gt_cases retry CCLIENT_SOCKET_RETRY) as [Hle|Hgt].
      * cbn [retry_loop retcode_eqb] in H. rewrite HCs in H.
        destruct (Z.gtb_spec retry CCLIENT_SOCKET_RETRY); [lia|].
        destruct (cclient_socket_send conn service obj response)
          as [[[ret' response'] wire]|]; [|discriminate].
        cbn [mbind option_bind] in H. rewrite to_size_t_small in H by lia.
        destruct (IH response' ret' (retry + 1) (S n) ltac:(lia) ltac:(lia) H)
          as (H1 & H2 & H3).
        repeat split; [lia|exact H2|exact H3].
      * rewrite retry_loop_break in H by lia.
        injection H as <- _ <-. repeat split; lia.
    + rewrite retry_loop_stop in H by exact Hret.
      injection H as <- _ <-. repeat split; try lia. intros ->. contradiction.
Qed.

Lemma retry_loop_returns service obj : forall conns response ret retry n,
  0 <= CCLIENT_SOCKET_RETRY < 2 ^ 64 - 1 ->
  0 <= retry ->
  Forall (attempt_returns service obj) conns ->
  CCLIENT_SOCKET_RETRY + 1 - retry <= Z.of_nat (length conns) ->
  is_Some (retry_loop conns service obj response ret retry n).
Proof.
  intros conns response ret retry n HC.
  assert (HCs : to_size_t CCLIENT_SOCKET_RETRY = CCLIENT_SOCKET_RETRY)
    by (apply to_size_t_small; lia).
  revert response ret retry n.
  induction conns as [|conn conns IH]; intros response ret retry n Hretry Hall Hlen;
    cbn [length] in Hlen.
  - destruct (retcode_recv_or_not ret) as [->|Hret].
    + rewrite retry_loop_break by lia. eauto.
    + rewrite retry_loop_stop by exact Hret. eauto.
  - apply Forall_cons in Hall as [Hconn Hall].
    destruct (retcode_recv_or_not ret) as [->|Hret].
    + destruct (Z.le_gt_cases retry CCLIENT_SOCKET_RETRY) as [Hle|Hgt].
      * destruct (Hconn response) as [[[ret' response'] wire] Hsend].
        assert (Hle' : retry <= to_size_t CCLIENT_SOCKET_RETRY) by lia.
        rewrite (retry_loop_again conn conns service obj response retry n
                   _ _ _ Hle' Hsend).
        rewrite to_size_t_small by lia.
        apply IH; [lia|exact Hall|lia].
      * rewrite retry_loop_break by lia. eauto.
    + rewrite retry_loop_stop by exact Hret. eauto.
Qed.

(** The query ends.  Given [CCLIENT_SOCKET_RETRY + 2] connections on each
    of which an attempt gives a result, whatever the results are, the
    query returns after at least one and at most
    [CCLIENT_SOCKET_RETRY + 2] attempts, and when the code it returns is
    [RC_UTILS_SOCKET_RECV] it has made all [CCLIENT_SOCKET_RETRY + 2]. *)
Theorem query_makes_bounded_attempts conns service obj response :
  0 <= CCLIENT_SOCKET_RETRY < 2 ^ 64 - 1 ->
  Forall (attempt_returns service obj) conns ->
  CCLIENT_SOCKET_RETRY + 2 <= Z.of_nat (length conns) ->
  exists r b m,
    iota_service_query conns (Some service) (Some obj) (Some response) =
      Some (r, Some b, m) /\
    1 <= Z.of_nat m <= CCLIENT_SOCKET_RETRY + 2 /\
    (r = RC_UTILS_SOCKET_RECV -> Z.of_nat m = CCLIENT_SOCKET_RETRY + 2).
Proof.
  intros HC Hall Hlen.
  destruct conns as [|conn conns]; [cbn [length] in Hlen; lia|].
  apply Forall_cons in Hall as [Hconn Hall]. cbn [length] in Hlen.
  destruct (Hconn response) as [[[ret response1] wire] Hsend].
  rewrite (query_unfold _ _ _ _ _ _ _ _ Hsend).
  destruct (retry_loop_returns service obj conns response1 ret 0 1%nat
              HC ltac:(lia) Hall ltac:(lia)) as [[[r b] m] Hloop].
  rewrite Hloop. exists r, b, m. split; [reflexivity|].
  destruct (retry_loop_bound service obj conns response1 ret 0 1%nat r b m
              HC ltac:(lia) ltac:(lia) Hloop) as (H1 & H2 & H3).
  repeat split; [lia|exact H2|exact H3].
Qed.

Lemma http_request_data_codes : forall sends wire data ptr data_length r sends' wire',
  http_request_data sends wire data ptr data_length = Some (r, sends', wire') ->
  r = RC_OK \/ r = RC_UTILS_SOCKET_SEND.
Proof.
  induction sends as [|n sends IH]; intros wire data ptr data_length r sends' wire' H;
    cbn [http_request_data] in H.
  - destruct (data_length >? 0); [discriminate|]. injection H as <- _ _. auto.
  - destruct (data_length >? 0); [|injection H as <- _ _; auto].
    destruct (n <? 0); [injection H as <- _ _; auto|]. eauto.
Qed.

Lemma cclient_socket_send_codes conn service obj response r b wire :
  cclient_socket_send conn service obj response = Some (r, b, wire) ->
  attempt_code r.
Proof.
  unfold cclient_socket_send, attempt_code. intros H.
  destruct (sockfd conn >=? 0); [|injection H as <- _ _; auto 10].
  destruct (http_request_header _ _ _ _) as [[[sent sends1] wire1]|];
    [|discriminate].
  cbn [mbind option_bind] in H.
  destruct (negb (sent =? -1)); [|injection H as <- _ _; auto 10].
  destruct (http_request_data _ _ _ _ _) as [[[result sends2] wire2]|] eqn:Hbody;
    [|discriminate].
  cbn [mbind option_bind] in H.
  destruct (http_request_data_codes _ _ _ _ _ _ _ _ Hbody) as [->| ->].
  - cbn [retcode_eqb] in H.
    destruct (http_response_read _ _) as [[result' response']|] eqn:Hread;
      [|discriminate].
    cbn [mbind option_bind] in H. injection H as <- _ _.
    destruct (read_loop_codes _ _ _ _ _ Hread) as [->|[->| ->]]; auto 10.
  - cbn [retcode_eqb] in H. injection H as <- _ _. auto 10.
Qed.

Lemma retry_loop_codes service obj : forall conns response ret retry n r b m,
  attempt_code ret ->
  retry_loop conns service obj response ret retry n = Some (r, b, m) ->
  attempt_code r.
Proof.
  induction conns as [|conn conns IH]; intros response ret retry n r b m Hret H;
    cbn [retry_loop] in H.
  - destruct (retcode_eqb ret RC_UTILS_SOCKET_RECV).
    + destruct (retry >? to_size_t CCLIENT_SOCKET_RETRY); [|discriminate].
      now injection H as <- _ _.
    + now injection H as <- _ _.
  - destruct (retcode_eqb ret RC_UTILS_SOCKET_RECV); [|now injection H as <- _ _].
    destruct (retry >? to_size_t CCLIENT_SOCKET_RETRY); [now injection H as <- _ _|].
    destruct (cclient_socket_send conn service obj response)
      as [[[ret' response'] wire]|] eqn:Hsend; [|discriminate].
    cbn [mbind option_bind] in H.
    exact (IH _ _ _ _ _ _ _ (cclient_socket_send_codes _ _ _ _ _ _ _ Hsend) H).
Qed.

(** The codes the caller can get from [iota_service_query]:
    [RC_NULL_PARAM], and then no attempt was made, or one of the six codes
    of an attempt.  The [RC_ERROR] that [cclient_socket_send] starts from
    and the code of a failed allocation never reach the caller. *)
Theorem query_codes conns service_opaque obj response r b m :
  iota_service_query conns service_opaque obj response = Some (r, b, m) ->
  (r = RC_NULL_PARAM /\ m = 0%nat /\ b = response) \/
  ((1 <= m)%nat /\ attempt_code r).
Proof.
  intros H. unfold iota_service_query in H.
  destruct service_opaque as [service|]; [|injection H as <- <- <-; auto].
  destruct obj as [obj|]; [|injection H as <- <- <-; auto].
  destruct response as [response|]; [|injection H as <- <- <-; auto].
  destruct conns as [|conn conns]; [discriminate|].
  destruct (cclient_socket_send conn service obj response)
    as [[[ret response1] wire]|] eqn:Hsend; [|discriminate].
  cbn [mbind option_bind] in H.
  destruct (retry_loop conns service obj response1 ret 0 1) as [[[r' b'] m']|] eqn:Hloop;
    [|discriminate].
  cbn [mbind option_bind] in H. injection H as <- _ <-.
  right. split.
  - clear -Hloop. revert response1 ret Hloop. generalize 0 as retry.
    assert (Hge : forall conns response ret retry n,
              retry_loop conns service obj response ret retry n = Some (r', b', m') ->
              (n <= m')%nat).
    { clear. induction conns as [|conn conns IH]; intros response ret retry n H;
        cbn [retry_loop] in H.
      - destruct (retcode_eqb ret RC_UTILS_SOCKET_RECV).
        + destruct (retry >? to_size_t CCLIENT_SOCKET_RETRY); [|discriminate].
          injection H as _ _ <-. lia.
        + injection H as _ _ <-. lia.
      - destruct (retcode_eqb ret RC_UTILS_SOCKET_RECV); [|injection H as _ _ <-; lia].
        destruct (retry >? to_size_t CCLIENT_SOCKET_RETRY); [injection H as _ _ <-; lia|].
        destruct (cclient_socket_send conn service obj response)
          as [[[ret' response'] wire]|]; [|discriminate].
        cbn [mbind option_bind] in H. apply IH in H. lia. }
    intros retry response1 ret Hloop. exact (Hge _ _ _ _ _ Hloop).
  - exact (retry_loop_codes service obj _ _ _ _ _ _ _ _
             (cclient_socket_send_codes _ _ _ _ _ _ _ Hsend) Hloop).
Qed.
End QueryOutcomes.

(** ** The further properties at concrete inputs *)

Lemma request_parse_data_composes_witness :
  let ctx := {| response := {| buf_length := 5; buf_data := ∅ |}; offset := 2;
                status := IOTA_REQUEST_STATUS_OK |} in
  request_parse_data (snd (request_parse_data ctx (lit "ll"))) (lit "o") =
    request_parse_data ctx (lit "llo").
Proof.
  cbv zeta. apply request_parse_data_composes; cbn; lia.
Defined.

Lemma body_loop_outcome_witness :
  http_request_data [4; 0; 7; 99] [] (buf_data example_body) 0 11 =
    Some (RC_OK, [99], lit "hello world") /\
  http_request_data [4; 2; -7; 99] [] (buf_data example_body) 0 11 =
    Some (RC_UTILS_SOCKET_SEND, [99], lit "hello ").
Proof.
  destruct (body_loop_outcome (buf_data example_body) [99] [] 0 11 [4; 0; 7])
    as [Hok _]; [cbn; lia|].
  destruct (body_loop_outcome (buf_data example_body) [99] [] 0 11 [4; 2])
    as [_ Hfail]; [cbn; lia|].
  split.
  - etransitivity; [exact (Hok ltac:(cbn; lia))|vm_compute; reflexivity].
  - etransitivity; [exact (Hfail ltac:(cbn; lia) (-7) ltac:(lia))|vm_compute; reflexivity].
Defined.

Lemma header_is_sent_by_one_call_witness :
  @cclient_socket_send response_grammar fresh_allocator
    {| sockfd := 3; send_results := [10; 11]; recv_results := [recv_data response_hello] |}
    example_service example_body empty_buffer =
  Some (RC_OK, hello_buffer, lit "POST /api " ++ lit "hello world").
Proof.
  rewrite (@header_is_sent_by_one_call response_grammar fresh_allocator
             {| sockfd := 3; send_results := [10; 11];
                recv_results := [recv_data response_hello] |}
             example_service example_body empty_buffer 10 [11] []).
  - vm_compute. reflexivity.
  - cbn. lia.
  - vm_compute. reflexivity.
  - lia.
  - cbn. lia.
  - reflexivity.
  - cbn. lia.
Defined.

Lemma connect_failure_is_final_witness :
  @iota_service_query response_grammar fresh_allocator (retry_ceiling 5)
    [{| sockfd := -1; send_results := []; recv_results := [] |}; conn_hello]
    (Some example_service) (Some example_body) (Some empty_buffer) =
  Some (RC_UTILS_SOCKET_CONNECT, Some empty_buffer, 1%nat).
Proof.
  apply (@connect_failure_is_final response_grammar fresh_allocator (retry_ceiling 5)).
  cbn. lia.
Defined.

Lemma header_send_failure_is_final_witness :
  @iota_service_query response_grammar fresh_allocator (retry_ceiling 5)
    [{| sockfd := 3; send_results := [-1; 11]; recv_results := [recv_data response_hello] |};
     conn_hello]
    (Some example_service) (Some example_body) (Some empty_buffer) =
  Some (RC_CCLIENT_HTTP_REQ, Some empty_buffer, 1%nat).
Proof.
  apply (@header_send_failure_is_final response_grammar fresh_allocator (retry_ceiling 5)
           _ _ _ _ _ [11]).
  - cbn. lia.
  - vm_compute. reflexivity.
  - reflexivity.
Defined.

Lemma body_send_failure_is_final_witness :
  @cclient_socket_send response_grammar fresh_allocator
    {| sockfd := 3; send_results := [143; 4; -7];
       recv_results := [recv_data response_hello] |}
    example_service example_body empty_buffer =
  Some (RC_UTILS_SOCKET_SEND, empty_buffer, example_header ++ lit "hell").
Proof.
  destruct (@body_send_failure_is_final response_grammar fresh_allocator (retry_ceiling 5)
              {| sockfd := 3; send_results := [143; 4; -7];
                 recv_results := [recv_data response_hello] |}
              [] example_service example_body empty_buffer 143 [4] (-7) [])
    as [H _].
  - cbn. lia.
  - vm_compute. reflexivity.
  - lia.
  - cbn. lia.
  - reflexivity.
  - cbn. lia.
  - lia.
  - rewrite H. vm_compute. reflexivity.
Defined.

Lemma undeclared_length_is_socket_recv_witness :
  @http_response_read response_grammar fresh_allocator
    (recv_data <$> [take 20 response_undeclared; drop 20 response_undeclared])
    hello_buffer =
  Some (RC_UTILS_SOCKET_RECV, hello_buffer).
Proof.
  rewrite <- (app_nil_r (recv_data <$> _)).
  apply (@undeclared_length_is_socket_recv response_grammar fresh_allocator
           _ UINT64_MAX (lit "hello")).
  - repeat constructor; vm_compute; discriminate.
  - vm_compute. reflexivity.
  - vm_compute. reflexivity.
Defined.

Lemma failed_allocation_is_socket_recv_witness :
  @http_response_read response_grammar exhausted_allocator
    (recv_data <$> [take 20 response_hello; drop 20 response_hello]) empty_buffer =
  Some (RC_UTILS_SOCKET_RECV, empty_buffer).
Proof.
  rewrite <- (app_nil_r (recv_data <$> _)).
  apply (@failed_allocation_is_socket_recv response_grammar exhausted_allocator
           _ 5 (lit "hello") empty_buffer RC_OOM).
  - repeat constructor; vm_compute; discriminate.
  - vm_compute. reflexivity.
  - vm_compute. discriminate.
  - reflexivity.
  - discriminate.
Defined.

Lemma malformed_header_is_socket_recv_witness :
  @http_response_read response_grammar fresh_allocator
    (recv_data <$> [take 20 response_malformed; drop 20 response_malformed])
    hello_buffer =
  Some (RC_UTILS_SOCKET_RECV, hello_buffer).
Proof.
  rewrite <- (app_nil_r (recv_data <$> _)).
  apply (@malformed_header_is_socket_recv response_grammar fresh_allocator
           _ (LF :: crlf)).
  - repeat constructor; vm_compute; discriminate.
  - vm_compute. reflexivity.
Defined.

Lemma close_inside_headers_leaves_the_buffer_witness :
  @http_response_read response_grammar fresh_allocator
    ((recv_data <$> [take 20 response_hello]) ++ [recv_error 5]) hello_buffer =
  Some (RC_CCLIENT_HTTP, hello_buffer).
Proof.
  apply (@close_inside_headers_leaves_the_buffer response_grammar fresh_allocator
           _ {| line := lit "Con"; status_line := false; declared_length := UINT64_MAX |}).
  - vm_compute. reflexivity.
  - cbn. lia.
Defined.

Lemma close_inside_body_leaves_what_arrived_witness :
  (fun '(r, b) =>
     (r, buf_length b, buf_data b !! 0, buf_data b !! 1, buf_data b !! 2)) <$>
    @http_response_read response_grammar fresh_allocator
      ((recv_data <$> [take 20 response_hello; take 20 (drop 20 response_hello)])
         ++ [recv_eof]) empty_buffer =
  Some (RC_CCLIENT_HTTP, 5, Some "h"%byte, Some "e"%byte, None).
Proof.
  destruct (@close_inside_body_leaves_what_arrived response_grammar fresh_allocator
              [take 20 response_hello; take 20 (drop 20 response_hello)]
              5 (lit "he") empty_buffer {| buf_length := 5; buf_data := ∅ |}
              recv_eof [])
    as (b & -> & _ & _ & _ & _ & ->).
  - repeat constructor; vm_compute; discriminate.
  - vm_compute. reflexivity.
  - vm_compute. discriminate.
  - reflexivity.
  - vm_compute. reflexivity.
  - cbn. lia.
  - vm_compute. reflexivity.
Defined.

Lemma response_read_returns_three_codes_witness :
  is_Some (@http_response_read response_grammar fresh_allocator
             [recv_data (take 20 response_hello); recv_eof; recv_data response_hello]
             empty_buffer).
Proof.
  apply (@response_read_returns_three_codes response_grammar fresh_allocator).
  apply Exists_cons_tl, Exists_cons_hd. cbn. lia.
Defined.

Lemma attempt_returns_undeclared :
  @attempt_returns response_grammar fresh_allocator example_service example_body
    conn_undeclared.
Proof.
  intros response. exists (RC_UTILS_SOCKET_RECV, response, example_header ++ lit "hello world").
  vm_compute. reflexivity.
Defined.

Lemma query_makes_bounded_attempts_witness :
  exists r b m,
    @iota_service_query response_grammar fresh_allocator (retry_ceiling 1)
      [conn_undeclared; conn_undeclared; conn_undeclared; conn_undeclared]
      (Some example_service) (Some example_body) (Some empty_buffer) =
      Some (r, Some b, m) /\
    1 <= Z.of_nat m <= 3 /\
    (r = RC_UTILS_SOCKET_RECV -> Z.of_nat m = 3).
Proof.
  apply (@query_makes_bounded_attempts response_grammar fresh_allocator (retry_ceiling 1)).
  - cbn. lia.
  - repeat constructor; apply attempt_returns_undeclared.
  - cbn. lia.
Defined.

Lemma query_codes_witness :
  (RC_CCLIENT_HTTP = RC_NULL_PARAM /\ 1%nat = 0%nat /\ Some empty_buffer = Some empty_buffer) \/
  ((1 <= 1)%nat /\ attempt_code RC_CCLIENT_HTTP).
Proof.
  apply (@query_codes response_grammar fresh_allocator (retry_ceiling 5)
           [conn_closed] (Some example_service) (Some example_body) (Some empty_buffer)).
  vm_compute. reflexivity.
Defined.
